(** * Keyframe motion curves, timeline lookup and blink state of movis / zunda

    A shallow embedding of [zunda/motion.py] (class [Motion]) and of
    [movis/contrib/commentary.py] (class [Character]), together with the
    properties the specification states about them.

    Python [float] is IEEE 754 binary64 and is modelled by Rocq's primitive
    floats, which are the same format with the same rounding.  Python
    exceptions are modelled by an error result, attribute mutation by explicit
    state passing over the object, and [list] versus [tuple] by a tagged
    sequence, because [Motion.extend] replaces the lists by tuples. *)

From Stdlib Require Import ZArith Floats Lia.
From stdpp Require Import base option list strings pretty gmap sorting.

Open Scope float_scope.

(** ** Python floats *)

Module PyFloat.

(** [x == x], false exactly for NaN. *)
Definition is_number (x : float) : bool := x =? x.

(** The three-way comparison both [<] and [<=] are derived from. *)
Definition fcmp (x y : float) : option comparison :=
  SFcompare (Prim2SF x) (Prim2SF y).

Definition then_cmp (c1 c2 : comparison) : comparison :=
  match c1 with Eq => c2 | _ => c1 end.

End PyFloat.

(** ** Python results, sequences and builtins *)

(** The exceptions the modelled code can raise.  [ValueError] carries the
    message, since [Motion.__call__] raises it for two different reasons;
    [OtherError] is an exception of a library's own class, by its name. *)
Inductive exn :=
  | ValueError (msg : string)
  | KeyError (key : string)
  | TypeError
  | AttributeError
  | AssertionError
  | IndexError
  | ZeroDivisionError
  | OverflowError
  | ValidationError
  | OtherError (name : string).

Inductive result (A : Type) :=
  | Ok (a : A)
  | Raise (e : exn).
Arguments Ok {A} a.
Arguments Raise {A} e.

Global Instance result_ret : MRet result := λ A a, Ok a.
Global Instance result_bind : MBind result := λ A B k r,
  match r with
  | Ok a => k a
  | Raise e => Raise e
  end.

(** A Python sequence is a [list] or a [tuple]; both support [len], indexing,
    iteration and [bisect], only the list supports [insert]. *)
Inductive pyseq (A : Type) :=
  | PyList (l : list A)
  | PyTuple (l : list A).
Arguments PyList {A} l.
Arguments PyTuple {A} l.

Definition items {A} (s : pyseq A) : list A :=
  match s with PyList l | PyTuple l => l end.

Definition len {A} (s : pyseq A) : Z := Z.of_nat (length (items s)).

(** [s[i]] with Python's negative indices. *)
Definition getitem {A} (s : pyseq A) (i : Z) : result A :=
  let n := len s in
  let j := if (i <? 0)%Z then (i + n)%Z else i in
  if ((j <? 0) || (n <=? j))%Z then Raise IndexError
  else match items s !! Z.to_nat j with
       | Some x => Ok x
       | None => Raise IndexError
       end.

(** [l.insert(i, x)] on the underlying list, for [0 <= i]; an index past the
    end appends. *)
Definition list_insert_at {A} (i : nat) (x : A) (l : list A) : list A :=
  take i l ++ x :: drop i l.

(** Looking up the method [insert]: a tuple has none. *)
Definition insert_method {A} (s : pyseq A) : result (nat → A → pyseq A) :=
  match s with
  | PyList l => Ok (λ i x, PyList (list_insert_at i x l))
  | PyTuple _ => Raise AttributeError
  end.

(** [s + [...]]: a list is concatenated, [tuple + list] is a [TypeError]. *)
Definition add_list {A} (s : pyseq A) (l' : list A) : result (list A) :=
  match s with
  | PyList l => Ok (l ++ l')
  | PyTuple _ => Raise TypeError
  end.

(** [bisect.bisect] (that is, [bisect_right]) of the standard library:
<<
    lo, hi = 0, len(a)
    while lo < hi:
        mid = (lo + hi) // 2
        if x < a[mid]: hi = mid
        else: lo = mid + 1
    return lo
>>
    The loop runs on fuel; [hi - lo] iterations always suffice. *)
Fixpoint bisect_loop (fuel : nat) (a : list float) (x : float) (lo hi : nat) : nat :=
  match fuel with
  | O => lo
  | S fuel' =>
      if (lo <? hi)%nat then
        let mid := ((lo + hi) / 2)%nat in
        match a !! mid with
        | Some y =>
            if x <? y then bisect_loop fuel' a x lo mid
            else bisect_loop fuel' a x (S mid) hi
        | None => lo
        end
      else lo
  end.

Definition bisect (a : list float) (x : float) : nat :=
  bisect_loop (length a) a x 0 (length a).

(** [zip] of three iterables stops at the shortest. *)
Fixpoint zip3 {A B C} (a : list A) (b : list B) (c : list C) : list (A * B * C) :=
  match a, b, c with
  | x :: a', y :: b', z :: c' => (x, y, z) :: zip3 a' b' c'
  | _, _, _ => []
  end.

(** [sorted]: a stable comparison sort driven by [<] on the elements, here
    with a comparison that can raise.  Modelled by stable insertion: every
    element is put in front of the first element of the sorted rest that is
    not smaller than it.  Any stable sort returns the same list whenever [<]
    is a strict weak order on the input. *)
Section Sorted.
Context {A : Type} (lt : A → A → result bool).

Fixpoint sorted_insert (x : A) (l : list A) : result (list A) :=
  match l with
  | [] => Ok [x]
  | y :: l' =>
      b ← lt y x;
      if b : bool then r ← sorted_insert x l'; Ok (y :: r)
      else Ok (x :: y :: l')
  end.

Fixpoint sorted (l : list A) : result (list A) :=
  match l with
  | [] => Ok []
  | x :: l' => r ← sorted l'; sorted_insert x r
  end.
End Sorted.

(** A list comprehension whose element expression can raise. *)
Fixpoint map_result {A B} (f : A → result B) (l : list A) : result (list B) :=
  match l with
  | [] => Ok []
  | x :: l' => y ← f x; ys ← map_result f l'; Ok (y :: ys)
  end.

(** [a / b] on floats raises on a zero divisor. *)
Definition truediv (a b : float) : result float :=
  if b =? 0 then Raise ZeroDivisionError else Ok (a / b).

(** [math.exp] and float [**] come from the C library; they raise
    [OverflowError] on overflow and are not specified bit for bit, so the
    model takes them as an interface. *)
Class Libm := {
  float_pow : float → float → result float;
  math_exp : float → result float;
}.

(** An instance for running examples that use the ["linear"] easing only. *)
Definition linear_only : Libm :=
  {| float_pow := λ _ _, Raise OverflowError;
     math_exp := λ _, Raise OverflowError |}.

(** ** zunda/motion.py *)

Module motion.

(** The eight function objects stored in [motion_types_to_func].  Function
    objects are compared by identity, which is equality of the tags. *)
Inductive easing :=
  | linear | ease_in | ease_out | ease_in_out
  | ease_in_cubic | ease_out_cubic | ease_in_expo | ease_out_expo.

Global Instance easing_eq_dec : EqDecision easing.
Proof. solve_decision. Defined.

Definition motion_types_to_func : gmap string easing :=
  list_to_map
    [ ("linear", linear); ("ease_in", ease_in); ("ease_out", ease_out);
      ("ease_in_out", ease_in_out); ("ease_in_cubic", ease_in_cubic);
      ("ease_out_cubic", ease_out_cubic); ("ease_in_expo", ease_in_expo);
      ("ease_out_expo", ease_out_expo) ]%string.

(** [motion_types_to_func[name]] *)
Definition func_of_name (name : string) : result easing :=
  match motion_types_to_func !! name with
  | Some f => Ok f
  | None => Raise (KeyError name)
  end.

(** Calling one of the lambdas. *)
Definition easing_call `{Libm} (f : easing) (t : float) : result float :=
  match f with
  | linear => Ok t
  | ease_in => float_pow t 2
  | ease_out => p ← float_pow (1 - t) 2; Ok (1 - p)
  | ease_in_out => p ← float_pow t 2; Ok (p * (3 - 2 * t))
  | ease_in_cubic => float_pow t 3
  | ease_out_cubic => p ← float_pow (1 - t) 3; Ok (1 - p)
  | ease_in_expo => math_exp (-10 * (1 - t))
  | ease_out_expo => e ← math_exp (-10 * t); Ok (1 - e)
  end.

(** [T = TypeVar('T', float, Tuple[float, float])] *)
Inductive value :=
  | VFloat (x : float)
  | VTuple (x y : float).

Record Motion := {
  keyframes : pyseq float;
  values : pyseq value;
  motion_types : pyseq easing;
  default_value : option value;
}.

Definition set_keyframes (s : pyseq float) (self : Motion) : Motion :=
  {| keyframes := s; values := values self;
     motion_types := motion_types self; default_value := default_value self |}.
Definition set_values (s : pyseq value) (self : Motion) : Motion :=
  {| keyframes := keyframes self; values := s;
     motion_types := motion_types self; default_value := default_value self |}.
Definition set_motion_types (s : pyseq easing) (self : Motion) : Motion :=
  {| keyframes := keyframes self; values := values self;
     motion_types := s; default_value := default_value self |}.

(** A method body: it reads and writes [self] and returns or raises.  The
    object is returned in both cases, since a raised exception does not undo
    the assignments made before it. *)
Definition method (A : Type) : Type := Motion → result A * Motion.

Global Instance method_ret : MRet method := λ A a self, (Ok a, self).
Global Instance method_bind : MBind method := λ A B k c self,
  match c self with
  | (Ok a, self') => k a self'
  | (Raise e, self') => (Raise e, self')
  end.

Definition get : method Motion := λ self, (Ok self, self).
Definition modify (f : Motion → Motion) : method unit := λ self, (Ok (), f self).
Definition lift {A} (r : result A) : method A := λ self, (r, self).
Definition raise {A} (e : exn) : method A := lift (Raise e).
Definition assert (b : bool) : method unit :=
  if b then mret () else raise AssertionError.

(** [Motion.__init__] *)
Definition __init__ (default_value : option value) : Motion :=
  {| keyframes := PyList []; values := PyList [];
     motion_types := PyList []; default_value := default_value |}.

(** [float(x)].  The model takes the times and values a client passes as
    floats, as they are annotated, and on a float [float] is the identity.
    An [int] passed in their place, which [float] rounds or refuses with
    [OverflowError], is outside the model. *)
Definition float_ (x : float) : float := x.

Definition _cast (v : value) : value :=
  match v with
  | VTuple x y => VTuple (float_ x) (float_ y)
  | VFloat x => VFloat (float_ x)
  end.

(** The last branch of [__call__]: the [isinstance] dispatch.  The message
    of the error also shows the two values. *)
Definition interpolate (m M : value) (t : float) : result value :=
  match m, M with
  | VFloat m, VFloat M => Ok (VFloat (float_ (m + (M - m) * t)))
  | VTuple m0 m1, VTuple M0 M1 =>
      Ok (VTuple (m0 + (M0 - m0) * t) (m1 + (M1 - m1) * t))
  | _, _ => Raise (ValueError "Unexpected value")
  end.

Definition __call__ `{Libm} (layer_time : float) : method value :=
  self ← get;
  if (len (keyframes self) =? 0)%Z then
    match default_value self with
    | Some v => mret v
    | None => raise (ValueError "No keyframes")
    end
  else if (len (keyframes self) =? 1)%Z then
    lift (getitem (values self) 0)
  else
    k0 ← lift (getitem (keyframes self) 0);
    if layer_time <? k0 then lift (getitem (values self) 0)
    else
      kn ← lift (getitem (keyframes self) (-1));
      if kn <=? layer_time then lift (getitem (values self) (-1))
      else
        let i := Z.of_nat (bisect (items (keyframes self)) layer_time) in
        m ← lift (getitem (values self) (i - 1));
        M ← lift (getitem (values self) i);
        ki ← lift (getitem (keyframes self) i);
        kp ← lift (getitem (keyframes self) (i - 1));
        let duration := ki - kp in
        kp ← lift (getitem (keyframes self) (i - 1));
        t ← lift (truediv (layer_time - kp) duration);
        f ← lift (getitem (motion_types self) (i - 1));
        t ← lift (easing_call f t);
        lift (interpolate m M t).

Definition append (keyframe : float) (value : value) (motion_type : string)
  : method unit :=
  self ← get;
  let i := bisect (items (keyframes self)) keyframe in
  insert ← lift (insert_method (keyframes self));
  modify (set_keyframes (insert i (float_ keyframe)));;
  self ← get;
  insert ← lift (insert_method (values self));
  modify (set_values (insert i (_cast value)));;
  self ← get;
  insert ← lift (insert_method (motion_types self));
  f ← lift (func_of_name motion_type);
  modify (set_motion_types (insert i f)).

(** *** The comparison [sorted] applies to the zipped triples

    Tuples are compared by their first items that differ under [==];
    floats by IEEE order, a float and a tuple or two distinct function
    objects not at all ([TypeError]).  Python takes one and the same object
    as equal to itself before it asks [==]; for numbers that is what [==]
    answers, and a NaN is taken here as an object of its own, unequal to
    every item of another entry. *)
Definition value_eq (a b : value) : bool :=
  match a, b with
  | VFloat x, VFloat y => x =? y
  | VTuple x0 x1, VTuple y0 y1 => (x0 =? y0) && (x1 =? y1)
  | _, _ => false
  end.

Definition value_lt (a b : value) : result bool :=
  match a, b with
  | VFloat x, VFloat y => Ok (x <? y)
  | VTuple x0 x1, VTuple y0 y1 =>
      Ok (if negb (x0 =? y0) then x0 <? y0
          else if negb (x1 =? y1) then x1 <? y1
          else false)
  | _, _ => Raise TypeError
  end.

Definition entry : Type := float * value * easing.

Definition entry_lt (a b : entry) : result bool :=
  let '(ka, va, fa) := a in
  let '(kb, vb, fb) := b in
  if negb (ka =? kb) then Ok (ka <? kb)
  else if negb (value_eq va vb) then value_lt va vb
  else if negb (bool_decide (fa = fb)) then Raise TypeError
  else Ok false.

(** Transposing [zipped] with [zip] and unpacking into three names: an empty
    [zipped] gives nothing to unpack. *)
Definition unzip3 (zipped : list entry)
  : result (pyseq float * pyseq value * pyseq easing) :=
  match zipped with
  | [] => Raise (ValueError "not enough values to unpack")
  | _ => Ok (PyTuple (map (λ e, e.1.1) zipped),
             PyTuple (map (λ e, e.1.2) zipped),
             PyTuple (map (λ e, e.2) zipped))
  end.

Definition extend (keyframes_ : list float) (values_ : list value)
    (motion_types_ : option (list string)) : method unit :=
  assert (bool_decide (length keyframes_ = length values_));;
  match motion_types_ with
  | Some names => assert (bool_decide (length keyframes_ = length names))
  | None => mret ()
  end;;
  let motion_types_ :=
    match motion_types_ with
    | None => replicate (length keyframes_) "linear"%string
    | Some names => names
    end in
  self ← get;
  keyframes_ ← lift (add_list (keyframes self) (map float_ keyframes_));
  self ← get;
  values_ ← lift (add_list (values self) (map _cast values_));
  self ← get;
  funcs ← lift (map_result func_of_name motion_types_);
  motion_types_ ← lift (add_list (motion_types self) funcs);
  zipped ← lift (sorted entry_lt (zip3 keyframes_ values_ motion_types_));
  '(keyframes_sorted, values_sorted, motion_types_sorted) ← lift (unzip3 zipped);
  modify (set_keyframes keyframes_sorted);;
  modify (set_values values_sorted);;
  modify (set_motion_types motion_types_sorted).

End motion.

(** ** The timeline lookup ([TimelineMixin], called TimelineIndex in the
    specification) *)

Module timeline.

(** Modelled from the spec: the attributes of [TimelineMixin]
    (movis/layer/mixin.py is not among the sources): the start and end times
    of the intervals, and the memo of the most recent query, the time asked
    and the index answered. *)
Record TimelineIndex := {
  start_times : list float;
  end_times : list float;
  cache : option (float * Z);
}.

(** Modelled from the spec: the constructor of [TimelineMixin]
    (movis/layer/mixin.py is not among the sources).  Mismatched lengths fail
    with a ValidationError. *)
Definition make (starts ends : list float) : result TimelineIndex :=
  if bool_decide (length starts = length ends)
  then Ok {| start_times := starts; end_times := ends; cache := None |}
  else Raise ValidationError.

(** Modelled from the spec: the lookup behind [resolve]: binary search over
    the start times for the candidate interval, then the check against the
    end time of that candidate; anything else is no match.  There is no
    scan of the other intervals. *)
Definition lookup (starts ends : list float) (time : float) : Z :=
  let idx := (Z.of_nat (bisect starts time) - 1)%Z in
  if (idx <? 0)%Z then (-1)%Z
  else match ends !! Z.to_nat idx with
       | Some e => if time <? e then idx else (-1)%Z
       | None => (-1)%Z
       end.

(** Modelled from the spec: [resolve] ([TimelineMixin.get_state]), with the
    memo of the most recent result keyed by the exact time value. *)
Definition resolve (time : float) (self : TimelineIndex) : Z * TimelineIndex :=
  match cache self with
  | Some (t, idx) =>
      if PrimFloat.Leibniz.eqb t time then (idx, self)
      else
        let idx := lookup (start_times self) (end_times self) time in
        (idx, {| start_times := start_times self; end_times := end_times self;
                 cache := Some (time, idx) |})
  | None =>
      let idx := lookup (start_times self) (end_times self) time in
      (idx, {| start_times := start_times self; end_times := end_times self;
               cache := Some (time, idx) |})
  end.

(** The contract in the words of the specification: the index of the first
    interval, in input order, with [start <= time < end], or [-1]. *)
Fixpoint first_containing_from (i : Z) (starts ends : list float) (time : float) : Z :=
  match starts, ends with
  | s :: starts', e :: ends' =>
      if (s <=? time) && (time <? e) then i
      else first_containing_from (i + 1) starts' ends' time
  | _, _ => (-1)%Z
  end.

Definition first_containing (starts ends : list float) (time : float) : Z :=
  first_containing_from 0 starts ends time.

End timeline.

(** ** movis/contrib/commentary.py: [Character] *)

(** A decoded RGBA image. *)
Inductive ndarray := NDArray (pixels : list Z).

(** What the module takes from hashlib, NumPy, PIL and [movis.imgproc]. *)
Class Platform := {
  (** [hashlib.sha224(s.encode("utf-8")).digest()], as bytes *)
  sha224_digest : string → list Z;
  (** [np.random.RandomState(x).rand()]: the first draw of a fresh generator
      seeded with [x] *)
  random_state_rand : Z → float;
  (** [np.asarray(PILImage.open(path).convert("RGBA"))] *)
  open_rgba : string → ndarray;
  alpha_composite : ndarray → ndarray → ndarray;
}.

Module commentary.
Import timeline.

(** [float(n)] for an [int]: rounded to nearest even, [OverflowError] past
    the largest float. *)
Definition float_of_int (n : Z) : result float :=
  let x := SF2Prim (binary_normalize prec emax n 0 false) in
  if is_infinity x then Raise OverflowError else Ok x.

(** [int(x)] for a [float]: truncation towards zero. *)
Definition int_of_float (x : float) : result Z :=
  match Prim2SF x with
  | S754_zero _ => Ok 0%Z
  | S754_infinity _ => Raise OverflowError
  | S754_nan => Raise (ValueError "cannot convert float NaN to integer")
  | S754_finite s m e =>
      let a := (if 0 <=? e then Z.pos m * 2 ^ e else Z.pos m / 2 ^ (- e))%Z in
      Ok (if s then (- a)%Z else a)
  end.

(** [np.frombuffer(s, dtype=np.uint32)[0]]: the first four bytes, little
    endian. *)
Definition first_uint32 (digest : list Z) : result Z :=
  match digest with
  | b0 :: b1 :: b2 :: b3 :: _ =>
      Ok (b0 + 256 * b1 + 65536 * b2 + 16777216 * b3)%Z
  | _ => Raise IndexError
  end.

(** The nested function [rand_from_string]; the seed is prefixed twice, once
    by the assignment and once inside the call of [sha224]. *)
Definition rand_from_string `{Platform} (string_ : string) (seed : Z) : result float :=
  let string_ := (pretty seed +:+ ":" +:+ string_)%string in
  let s := sha224_digest (pretty seed +:+ ":" +:+ string_)%string in
  x ← first_uint32 s;
  Ok (random_state_rand x).

(** [Union[Path, np.ndarray]] *)
Inductive image :=
  | Path (p : string)
  | Array (a : ndarray).

Record Character := {
  timeline : TimelineIndex;
  character_name : string;
  character_imgs : gmap string image;
  eye_imgs : gmap string (list image);
  character_timeline : list string;
  blink_per_minute : Z;
  blink_duration : float;
}.

(** The object and, beside it, the state of NumPy's global generator, which
    a call could have read or advanced. *)
Record world := {
  self_ : Character;
  np_random : Z;
}.

Definition method (A : Type) : Type := world → result A * world.

Global Instance method_ret : MRet method := λ A a w, (Ok a, w).
Global Instance method_bind : MBind method := λ A B k c w,
  match c w with
  | (Ok a, w') => k a w'
  | (Raise e, w') => (Raise e, w')
  end.

Definition get : method Character := λ w, (Ok (self_ w), w).
Definition modify (f : Character → Character) : method unit :=
  λ w, (Ok (), {| self_ := f (self_ w); np_random := np_random w |}).
Definition lift {A} (r : result A) : method A := λ w, (r, w).

Definition set_timeline (t : TimelineIndex) (c : Character) : Character :=
  {| timeline := t; character_name := character_name c;
     character_imgs := character_imgs c; eye_imgs := eye_imgs c;
     character_timeline := character_timeline c;
     blink_per_minute := blink_per_minute c;
     blink_duration := blink_duration c |}.
Definition set_character_imgs (m : gmap string image) (c : Character) : Character :=
  {| timeline := timeline c; character_name := character_name c;
     character_imgs := m; eye_imgs := eye_imgs c;
     character_timeline := character_timeline c;
     blink_per_minute := blink_per_minute c;
     blink_duration := blink_duration c |}.
Definition set_eye_imgs (m : gmap string (list image)) (c : Character) : Character :=
  {| timeline := timeline c; character_name := character_name c;
     character_imgs := character_imgs c; eye_imgs := m;
     character_timeline := character_timeline c;
     blink_per_minute := blink_per_minute c;
     blink_duration := blink_duration c |}.

(** [self.get_state(time)], inherited from [TimelineMixin]. *)
Definition get_state (time : float) : method Z :=
  self ← get;
  let '(idx, t) := resolve time (timeline self) in
  modify (set_timeline t);;
  mret idx.

(** [d[key]] on a dict. *)
Definition dict_getitem {V} (d : gmap string V) (key : string) : result V :=
  match d !! key with
  | Some v => Ok v
  | None => Raise (KeyError key)
  end.

(** [l[i] = x] on a list, with Python's negative indices. *)
Definition setitem {A} (l : list A) (i : Z) (x : A) : result (list A) :=
  let n := Z.of_nat (length l) in
  let j := if (i <? 0)%Z then (i + n)%Z else i in
  if ((j <? 0) || (n <=? j))%Z then Raise IndexError
  else Ok (<[Z.to_nat j := x]> l).

Definition get_eye_state `{Platform} (time : float) (idx : Z) : method Z :=
  self ← get;
  emotion ← lift (getitem (PyList (character_timeline self)) idx);
  match eye_imgs self !! emotion with
  | None => mret (-1)%Z
  | Some eyes =>
      let n_eyes := Z.of_nat (length eyes) in
      if (n_eyes =? 1)%Z then mret 0%Z
      else
        bpm ← lift (float_of_int (blink_per_minute self));
        sixty ← lift (float_of_int 60);
        p_threshold ← lift (truediv (bpm * blink_duration self) sixty);
        q ← lift (truediv time (blink_duration self));
        n ← lift (int_of_float q);
        p ← lift (rand_from_string (character_name self +:+ ":" +:+ pretty n) 0);
        if p <? p_threshold then
          d ← lift (float_of_int (n_eyes - 1));
          frame_duration ← lift (truediv (blink_duration self) d);
          nf ← lift (float_of_int n);
          let t1 := time - nf * blink_duration self in
          q1 ← lift (truediv t1 frame_duration);
          n1 ← lift (int_of_float q1);
          mret (Z.min (n1 + 1) (n_eyes - 1))
        else mret 0%Z
  end.

Definition get_key `{Platform} (time : float) : method (string * Z) :=
  idx ← get_state time;
  if (idx <? 0)%Z then mret (""%string, (-1)%Z)
  else
    self ← get;
    emotion ← lift (getitem (PyList (character_timeline self)) idx);
    eye ← get_eye_state time idx;
    mret (emotion, eye).

Definition __call__ `{Platform} (time : float) : method (option ndarray) :=
  idx ← get_state time;
  if (idx <? 0)%Z then mret None
  else
    self ← get;
    emotion ← lift (getitem (PyList (character_timeline self)) idx);
    character ← lift (dict_getitem (character_imgs self) emotion);
    base_img ←
      match character with
      | Path p =>
          let base_img := open_rgba p in
          modify (λ c, set_character_imgs (<[emotion := Array base_img]> (character_imgs c)) c);;
          mret base_img
      | Array a => mret a
      end;
    self ← get;
    match eye_imgs self !! emotion with
    | Some eyes =>
        eye_number ← get_eye_state time idx;
        self ← get;
        eyes ← lift (dict_getitem (eye_imgs self) emotion);
        eye ← lift (getitem (PyList eyes) eye_number);
        eye_img ←
          match eye with
          | Path p =>
              let eye_img := open_rgba p in
              eyes' ← lift (setitem eyes eye_number (Array eye_img));
              modify (λ c, set_eye_imgs (<[emotion := eyes']> (eye_imgs c)) c);;
              mret eye_img
          | Array a => mret a
          end;
        mret (Some (alpha_composite base_img eye_img))
    | None => mret (Some base_img)
    end.

End commentary.

(** ** movis/contrib/commentary.py: [Character.__init__] *)

(** What the constructor takes from pathlib and the file system.  A path
    is held as the string it prints as. *)
Class FileSystem := {
  (** [Path(directory) / name] *)
  joinpath : string → string → string;
  (** [path.name] *)
  path_name : string → string;
  (** [path.exists()] *)
  path_exists : string → bool;
  (** The paths [Path(directory).iterdir()] yields, in its order. *)
  iterdir : string → list string;
}.

Module character_init.
Import timeline commentary.

Fixpoint count_dots (s : string) : nat :=
  match s with
  | EmptyString => 0%nat
  | String c s' =>
      ((if Ascii.eqb c (Ascii.ascii_of_nat 46) then 1 else 0) + count_dots s')%nat
  end.

(** [len(name.split("."))] *)
Definition split_length (name : string) : nat := S (count_dots name).

(** The first loop: the statuses this character takes, and the initial one. *)
Definition collect_emotions (character_name : string)
    (characters character_status : list string) (initial_status : string)
  : gset string :=
  foldl (λ (emotions : gset string) '(character, status),
           if String.eqb character character_name
           then emotions ∪ {[status]} else emotions)
        ∅ (zip characters character_status)
  ∪ {[initial_status]}.

Definition eye_path `{FileSystem} (character_dir emotion : string) : string :=
  joinpath character_dir (emotion +:+ ".eye.png")%string.

(** The inner loop: the base eye image, then the entries of the directory
    named [<emotion>.eye.<something>.<something>]. *)
Definition eyes_of `{FileSystem} (character_dir emotion : string) : list image :=
  Path (eye_path character_dir emotion) ::
  (Path <$>
     filter (λ f, String.prefix (emotion +:+ ".eye.")%string (path_name f) = true
                  ∧ split_length (path_name f) = 4%nat)
            (iterdir character_dir)).

(** The last loop: the status in force at every line of the script. *)
Fixpoint build_timeline (character_name status : string)
    (lines : list (string * string)) : list string :=
  match lines with
  | [] => []
  | (current_character, current_status) :: rest =>
      let status :=
        if String.eqb current_character character_name
        then current_status else status in
      status :: build_timeline character_name status rest
  end.

(** [Character.__init__].  The loop over the set of emotions writes one key
    per emotion, so the order the set is traversed in does not show. *)
Definition __init__ `{FileSystem} (start_times end_times : list float)
    (character_name character_dir : string)
    (characters character_status : list string)
    (initial_status : string) (blink_per_minute : Z) (blink_duration : float)
  : result Character :=
  if negb (bool_decide (length start_times = length characters
                        ∧ length characters = length character_status))
  then Raise AssertionError
  else
    tl ← make start_times end_times;
    let emotions :=
      collect_emotions character_name characters character_status initial_status in
    Ok {| timeline := tl;
          character_name := character_name;
          character_imgs :=
            set_to_map (λ emotion,
                          (emotion, Path (joinpath character_dir (emotion +:+ ".png"))))
                       emotions;
          eye_imgs :=
            set_to_map (λ emotion, (emotion, eyes_of character_dir emotion))
                       (filter (λ emotion,
                                  path_exists (eye_path character_dir emotion) = true)
                               emotions);
          character_timeline :=
            build_timeline character_name initial_status
              (zip characters character_status);
          blink_per_minute := blink_per_minute;
          blink_duration := blink_duration |}.

End character_init.

(** ** movis/contrib/commentary.py: [Slide] *)

(** What [Slide.__call__] takes from pdf2image and PIL. *)
Class Pdf2Image := {
  (** The loop over [convert_from_path(file)] with [img.convert("RGBA")],
      run for the [n]-th time on this object: the pages as arrays, or the
      exception that [convert_from_path] or [img.convert] raised.  The file
      can change between two runs, so the outcome depends on [n]. *)
  convert_from_path : nat → string → result (list ndarray);
}.

Module slide.
Import timeline.

(** The object: [slide_timeline] is the integer array [Slide.__init__] got
    from [np.cumsum(slide_counter)], and [slide_images] is [None] until the
    PDF has been converted. *)
Record Slide := {
  timeline : TimelineIndex;
  slide_timeline : list Z;
  slide_file : string;
  slide_images : option (list ndarray);
}.

(** The object and, beside it, how often the conversion of the PDF has been
    started. *)
Record world := {
  self_ : Slide;
  conversions : nat;
}.

Definition method (A : Type) : Type := world → result A * world.

Global Instance method_ret : MRet method := λ A a w, (Ok a, w).
Global Instance method_bind : MBind method := λ A B k c w,
  match c w with
  | (Ok a, w') => k a w'
  | (Raise e, w') => (Raise e, w')
  end.

Definition get : method Slide := λ w, (Ok (self_ w), w).
Definition modify (f : Slide → Slide) : method unit :=
  λ w, (Ok (), {| self_ := f (self_ w); conversions := conversions w |}).
Definition lift {A} (r : result A) : method A := λ w, (r, w).

Definition set_timeline (t : TimelineIndex) (s : Slide) : Slide :=
  {| timeline := t; slide_timeline := slide_timeline s;
     slide_file := slide_file s; slide_images := slide_images s |}.
Definition set_slide_images (imgs : option (list ndarray)) (s : Slide) : Slide :=
  {| timeline := timeline s; slide_timeline := slide_timeline s;
     slide_file := slide_file s; slide_images := imgs |}.

(** The loop that converts the PDF; when it raises, nothing has been
    assigned. *)
Definition convert `{Pdf2Image} (file : string) : method (list ndarray) :=
  λ w, (convert_from_path (conversions w) file,
        {| self_ := self_ w; conversions := S (conversions w) |}).

(** [self.get_state(time)], inherited from [TimelineMixin]. *)
Definition get_state (time : float) : method Z :=
  self ← get;
  let '(idx, t) := resolve time (timeline self) in
  modify (set_timeline t);;
  mret idx.

(** [a[i]] on a NumPy array, for [0 <= i]. *)
Definition array_getitem (a : list Z) (i : Z) : result Z :=
  getitem (PyList a) i.

Definition get_key (time : float) : method Z :=
  idx ← get_state time;
  if (0 <? idx)%Z then
    self ← get;
    lift (array_getitem (slide_timeline self) idx)
  else mret (-1)%Z.

Definition __call__ `{Pdf2Image} (time : float) : method (option ndarray) :=
  idx ← get_state time;
  if (idx <? 0)%Z then mret None
  else
    self ← get;
    slide_number ← lift (array_getitem (slide_timeline self) idx);
    self ← get;
    match slide_images self with
    | None =>
        slide_images_ ← convert (slide_file self);
        modify (set_slide_images (Some slide_images_))
    | Some _ => mret ()
    end;;
    self ← get;
    match slide_images self with
    | Some imgs => img ← lift (getitem (PyList imgs) slide_number); mret (Some img)
    | None => lift (Raise TypeError)
    end.

End slide.

(** ** Facts about float comparison and subtraction *)

Module float_facts.
Import PyFloat.

Ltac cmp_cases :=
  repeat match goal with
  | H : context [Z.compare ?a ?b] |- _ => destruct (Z.compare_spec a b); simpl in H
  | |- context [Z.compare ?a ?b] => destruct (Z.compare_spec a b); simpl
  | H : context [Pos.compare ?a ?b] |- _ => destruct (Pos.compare_spec a b); simpl in H
  | |- context [Pos.compare ?a ?b] => destruct (Pos.compare_spec a b); simpl
  end.

Lemma SFcompare_flip x y c :
  SFcompare x y = Some c → SFcompare y x = Some (CompOpp c).
Proof.
  destruct x as [[]|[]| |[] mx ex], y as [[]|[]| |[] my ey]; simpl;
    intros H; inversion H; subst; clear H; try reflexivity;
    f_equal; rewrite (Z.compare_antisym ex ey);
    destruct (ex ?= ey)%Z; simpl; try reflexivity;
    change (Pos.compare_cont Eq) with Pos.compare;
    rewrite (Pos.compare_antisym mx my); destruct (mx ?= my)%positive; reflexivity.
Qed.

Lemma SFcompare_chain x y z c1 c2 :
  SFcompare x y = Some c1 → SFcompare y z = Some c2 →
  c1 ≠ Gt → c2 ≠ Gt → SFcompare x z = Some (then_cmp c1 c2).
Proof.
  destruct x as [[]|[]| |[] mx ex], y as [[]|[]| |[] my ey],
           z as [[]|[]| |[] mz ez]; simpl;
    intros H1 H2 N1 N2; inversion H1; subst; clear H1;
    inversion H2; subst; clear H2;
    try reflexivity; try congruence; f_equal;
    change (Pos.compare_cont Eq) with Pos.compare in *;
    cmp_cases; subst; simpl in *; try lia; try congruence; try reflexivity.
Qed.

Lemma SFcompare_defined x y :
  x ≠ S754_nan → y ≠ S754_nan → ∃ c, SFcompare x y = Some c.
Proof. destruct x, y; simpl; intros; try congruence; eauto. Qed.

Lemma SFcompare_refl x : x ≠ S754_nan → SFcompare x x = Some Eq.
Proof.
  destruct x as [[]|[]| |[] m e]; simpl; intros; try congruence;
    rewrite Z.compare_refl; change (Pos.compare_cont Eq) with Pos.compare;
    by rewrite Pos.compare_refl.
Qed.

Lemma ltb_fcmp x y : (x <? y) = true ↔ fcmp x y = Some Lt.
Proof.
  rewrite FloatAxioms.ltb_spec. unfold SFltb, fcmp.
  destruct (SFcompare _ _) as [[]|]; split; congruence.
Qed.

Lemma leb_fcmp x y :
  (x <=? y) = true ↔ fcmp x y = Some Lt ∨ fcmp x y = Some Eq.
Proof.
  rewrite FloatAxioms.leb_spec. unfold SFleb, fcmp.
  destruct (SFcompare _ _) as [[]|]; split; intros; try congruence; eauto;
    destruct_or!; congruence.
Qed.

Lemma eqb_fcmp x y : (x =? y) = true ↔ fcmp x y = Some Eq.
Proof.
  rewrite FloatAxioms.eqb_spec. unfold SFeqb, fcmp.
  destruct (SFcompare _ _) as [[]|]; split; congruence.
Qed.

Lemma is_number_spec x : is_number x = true ↔ Prim2SF x ≠ S754_nan.
Proof.
  unfold is_number. rewrite eqb_fcmp. unfold fcmp. split.
  - intros H E. rewrite E in H. discriminate.
  - apply SFcompare_refl.
Qed.

Lemma fcmp_defined x y :
  is_number x = true → is_number y = true → ∃ c, fcmp x y = Some c.
Proof. rewrite !is_number_spec. apply SFcompare_defined. Qed.

Lemma fcmp_number x y c :
  fcmp x y = Some c → is_number x = true ∧ is_number y = true.
Proof.
  unfold fcmp. rewrite !is_number_spec. intros H.
  split; intros E; rewrite E in H; [|destruct (Prim2SF x)]; discriminate.
Qed.

Lemma fcmp_flip x y c : fcmp x y = Some c → fcmp y x = Some (CompOpp c).
Proof. apply SFcompare_flip. Qed.

Lemma fcmp_chain x y z c1 c2 :
  fcmp x y = Some c1 → fcmp y z = Some c2 → c1 ≠ Gt → c2 ≠ Gt →
  fcmp x z = Some (then_cmp c1 c2).
Proof. apply SFcompare_chain. Qed.

(** *** The order facts used below *)

Lemma ltb_irrefl x : (x <? x) = false.
Proof.
  destruct (x <? x) eqn:E; [|done]. apply ltb_fcmp in E.
  pose proof (fcmp_flip _ _ _ E) as E'. simpl in E'. congruence.
Qed.

Lemma ltb_leb x y : (x <? y) = true → (x <=? y) = true.
Proof. rewrite ltb_fcmp, leb_fcmp. auto. Qed.

Lemma eqb_leb x y : (x =? y) = true → (x <=? y) = true.
Proof. rewrite eqb_fcmp, leb_fcmp. auto. Qed.

Lemma eqb_sym x y : (x =? y) = (y =? x).
Proof.
  apply eq_true_iff_eq. rewrite !eqb_fcmp.
  split; intros H; apply fcmp_flip in H; done.
Qed.

Lemma leb_number x y :
  (x <=? y) = true → is_number x = true ∧ is_number y = true.
Proof. rewrite leb_fcmp. intros [H|H]; by apply fcmp_number in H. Qed.

Lemma ltb_number x y :
  (x <? y) = true → is_number x = true ∧ is_number y = true.
Proof. intros H. by apply leb_number, ltb_leb. Qed.

Lemma leb_refl x : is_number x = true → (x <=? x) = true.
Proof. intros H. by apply eqb_leb. Qed.

Lemma leb_not_ltb x y : (x <=? y) = true → (y <? x) = false.
Proof.
  rewrite leb_fcmp. intros H. destruct (y <? x) eqn:E; [|done].
  apply ltb_fcmp, fcmp_flip in E. simpl in E. destruct H; congruence.
Qed.

Lemma ltb_not_leb x y : (x <? y) = true → (y <=? x) = false.
Proof.
  rewrite ltb_fcmp. intros H. destruct (y <=? x) eqn:E; [|done].
  apply leb_fcmp in E. apply fcmp_flip in H. simpl in H.
  destruct E; congruence.
Qed.

Lemma ltb_asym x y : (x <? y) = true → (y <? x) = false.
Proof. intros H. by apply leb_not_ltb, ltb_leb. Qed.

Lemma not_ltb_leb x y :
  is_number x = true → is_number y = true →
  (x <? y) = false → (y <=? x) = true.
Proof.
  intros Hx Hy H. destruct (fcmp_defined x y Hx Hy) as [c Hc].
  apply leb_fcmp. pose proof (fcmp_flip _ _ _ Hc) as Hf.
  destruct c; simpl in Hf; auto.
  apply ltb_fcmp in Hc. congruence.
Qed.

Lemma not_leb_ltb x y :
  is_number x = true → is_number y = true →
  (x <=? y) = false → (y <? x) = true.
Proof.
  intros Hx Hy H. destruct (y <? x) eqn:E; [done|].
  apply not_ltb_leb in E; [congruence|done..].
Qed.

Lemma leb_trans x y z :
  (x <=? y) = true → (y <=? z) = true → (x <=? z) = true.
Proof.
  rewrite !leb_fcmp. intros [H1|H1] [H2|H2];
    pose proof (fcmp_chain _ _ _ _ _ H1 H2) as H; simpl in H;
    (left + right); by apply H.
Qed.

Lemma ltb_leb_trans x y z :
  (x <? y) = true → (y <=? z) = true → (x <? z) = true.
Proof.
  rewrite !ltb_fcmp, leb_fcmp. intros H1 [H2|H2];
    pose proof (fcmp_chain _ _ _ _ _ H1 H2) as H; simpl in H; by apply H.
Qed.

Lemma leb_ltb_trans x y z :
  (x <=? y) = true → (y <? z) = true → (x <? z) = true.
Proof.
  rewrite !ltb_fcmp, leb_fcmp. intros [H1|H1] H2;
    pose proof (fcmp_chain _ _ _ _ _ H1 H2) as H; simpl in H; by apply H.
Qed.

Lemma ltb_trans x y z :
  (x <? y) = true → (y <? z) = true → (x <? z) = true.
Proof. intros H1 H2. eapply ltb_leb_trans; [done|]. by apply ltb_leb. Qed.

Lemma neqb_ltb x y :
  is_number x = true → is_number y = true → (x =? y) = false →
  (x <? y) = true ∨ (y <? x) = true.
Proof.
  intros Hx Hy H. destruct (fcmp_defined x y Hx Hy) as [c Hc].
  destruct c.
  - apply eqb_fcmp in Hc. congruence.
  - left. by apply ltb_fcmp.
  - right. apply ltb_fcmp. by apply fcmp_flip in Hc.
Qed.

Lemma ltb_neqb x y : (x <? y) = true → (x =? y) = false.
Proof.
  rewrite ltb_fcmp. intros H. destruct (x =? y) eqn:E; [|done].
  apply eqb_fcmp in E. congruence.
Qed.

Lemma leb_antisym x y :
  (x <=? y) = true → (y <=? x) = true → (x =? y) = true.
Proof.
  rewrite !leb_fcmp, eqb_fcmp. intros [H|H] H'; [|done].
  apply fcmp_flip in H. simpl in H. destruct H'; congruence.
Qed.

(** *** Subtraction of two distinct numbers is never zero

    [Motion.__call__] divides by the distance between two keyframes.  With
    gradual underflow that distance is non-zero whenever the keyframes
    differ; the proof follows the specification of binary64 rounding. *)

Section ieee.
Local Open Scope Z_scope.
Variables prec emax : Z.
Hypothesis prec_pos : 0 < prec.
Local Abbreviation emin := (SpecFloat.emin prec emax).
Local Abbreviation fexp := (SpecFloat.fexp prec emax).

Lemma digits2_pos_bound p : 2 ^ (Zpos (digits2_pos p) - 1) ≤ Zpos p.
Proof.
  induction p as [p IH|p IH|]; simpl; [| |done];
    rewrite Pos2Z.inj_succ; replace (Z.succ (Z.pos (digits2_pos p)) - 1)
      with (Z.succ (Z.pos (digits2_pos p) - 1)) by lia;
    rewrite Z.pow_succ_r by lia; lia.
Qed.

Lemma shr_1_m mrs : 0 ≤ shr_m mrs → shr_m (shr_1 mrs) = shr_m mrs / 2.
Proof.
  destruct mrs as [[|[p|p|]|p] r s]; simpl; intros; try lia; try done.
  - rewrite Pos2Z.inj_xI. apply Z.div_unique with 1; lia.
  - rewrite Pos2Z.inj_xO. apply Z.div_unique with 0; lia.
Qed.

Lemma iter_shr_1_m p mrs :
  0 ≤ shr_m mrs → shr_m (SpecFloat.iter_pos shr_1 p mrs) = shr_m mrs / 2 ^ Zpos p.
Proof.
  revert mrs. induction p as [p IH|p IH|]; intros mrs Hm; simpl SpecFloat.iter_pos.
  - assert (0 ≤ shr_m (shr_1 mrs)) by (rewrite shr_1_m by done; apply Z.div_pos; lia).
    assert (0 ≤ shr_m (SpecFloat.iter_pos shr_1 p (shr_1 mrs))).
    { rewrite IH by done. apply Z.div_pos; lia. }
    rewrite !IH, shr_1_m by done.
    rewrite !Z.div_div by lia. f_equal.
    replace (Z.pos p~1) with (1 + Z.pos p + Z.pos p) by lia.
    rewrite !Z.pow_add_r by lia. lia.
  - assert (0 ≤ shr_m (SpecFloat.iter_pos shr_1 p mrs)).
    { rewrite IH by done. apply Z.div_pos; lia. }
    rewrite !IH by done.
    rewrite !Z.div_div by lia. f_equal.
    replace (Z.pos p~0) with (Z.pos p + Z.pos p) by lia.
    rewrite !Z.pow_add_r by lia. lia.
  - by rewrite shr_1_m.
Qed.

(** Shifting a positive mantissa to its target exponent keeps it positive. *)
Lemma shr_fexp_pos m e l :
  0 < m → emin ≤ e →
  0 < shr_m (shr_fexp prec emax m e l).1 ∧ emin ≤ (shr_fexp prec emax m e l).2.
Proof.
  intros Hm He. unfold shr_fexp, shr.
  assert (shr_m (shr_record_of_loc m l) = m) as Hrec by (by destruct l as [|[]]).
  destruct m as [|p|p]; try lia. simpl Zdigits2.
  pose proof (digits2_pos_bound p) as Hd.
  destruct (_ - e) as [|n|n] eqn:Hn; simpl; rewrite ?Hrec; try lia.
  rewrite iter_shr_1_m by (rewrite Hrec; lia). rewrite Hrec. split.
  - apply Z.div_str_pos. split; [lia|].
    etrans; [|exact Hd]. apply Z.pow_le_mono_r; [lia|].
    unfold SpecFloat.fexp in Hn. lia.
  - lia.
Qed.

Lemma round_nearest_even_pos m l : 0 < m → 0 < round_nearest_even m l.
Proof. destruct l as [|[]]; simpl; [done| |done|lia]. destruct (Z.even m); lia. Qed.

Lemma binary_round_aux_nonzero s m e l sz :
  0 < m → emin ≤ e → binary_round_aux prec emax s m e l ≠ S754_zero sz.
Proof.
  intros Hm He. unfold binary_round_aux.
  destruct (shr_fexp_pos m e l Hm He) as [Hm1 He1].
  destruct (shr_fexp prec emax m e l) as [mrs1 e1]. simpl in Hm1, He1.
  pose proof (round_nearest_even_pos _ (loc_of_shr_record mrs1) Hm1) as Hr.
  destruct (shr_fexp_pos _ e1 loc_Exact Hr He1) as [Hm2 He2].
  destruct (shr_fexp prec emax _ e1 loc_Exact) as [mrs2 e2]. simpl in Hm2, He2.
  destruct (shr_m mrs2); try lia. by destruct (_ <=? _).
Qed.

Lemma shl_align_exp m e e' : emin ≤ e → emin ≤ e' → emin ≤ (shl_align m e e').2.
Proof. unfold shl_align. by destruct (e' - e). Qed.

Lemma binary_round_nonzero s m e sz :
  emin ≤ e → binary_round prec emax s m e ≠ S754_zero sz.
Proof.
  intros He. unfold binary_round.
  pose proof (shl_align_exp m e (fexp (Z.pos (digits2_pos m) + e)) He) as H.
  destruct (shl_align _ _ _) as [mz ez]. simpl in H.
  apply binary_round_aux_nonzero; [lia|]. apply H. unfold SpecFloat.fexp. lia.
Qed.

Lemma binary_normalize_nonzero m e sz sz' :
  m ≠ 0 → emin ≤ e → binary_normalize prec emax m e sz ≠ S754_zero sz'.
Proof.
  intros Hm He. destruct m; simpl; [done|..]; by apply binary_round_nonzero.
Qed.

(** A canonical mantissa fixes the exponent once the magnitude is fixed. *)
Lemma digits2_pos_iter m d :
  Zpos (digits2_pos (Pos.iter xO m d)) = Zpos (digits2_pos m) + Zpos d.
Proof.
  induction d as [|d IH] using Pos.peano_ind; simpl.
  - lia.
  - rewrite Pos.iter_succ. simpl. lia.
Qed.

Lemma bounded_emin m e : bounded prec emax m e = true → emin ≤ e.
Proof.
  unfold bounded, canonical_mantissa, SpecFloat.fexp.
  intros [H _]%andb_prop. apply Z.eqb_eq in H. lia.
Qed.

Lemma shl_align_inj mx ex my ey :
  canonical_mantissa prec emax mx ex = true →
  canonical_mantissa prec emax my ey = true →
  (shl_align mx ex (Z.min ex ey)).1 = (shl_align my ey (Z.min ex ey)).1 →
  ex = ey ∧ mx = my.
Proof.
  unfold canonical_mantissa, shl_align. intros Hx%Z.eqb_eq Hy%Z.eqb_eq.
  destruct (Z.min ex ey - ex) as [|d|d] eqn:Hdx,
           (Z.min ex ey - ey) as [|d'|d'] eqn:Hdy; simpl; try lia;
    intros E; subst.
  all: rewrite ?digits2_pos_iter in *.
  all: try (unfold SpecFloat.fexp in *; split; [lia|done]).
  all: try (exfalso; unfold SpecFloat.fexp in *; lia).

Qed.

Lemma SFsub_nonzero x y sz :
  SpecFloat.valid_binary prec emax x = true →
  SpecFloat.valid_binary prec emax y = true →
  SFcompare x y = Some Lt → SFsub prec emax y x ≠ S754_zero sz.
Proof.
  destruct x as [[]|[]| |sx mx ex], y as [[]|[]| |sy my ey]; simpl;
    intros Vx Vy H; try done.
  pose proof (bounded_emin _ _ Vx). pose proof (bounded_emin _ _ Vy).
  apply andb_prop in Vx as [Cx _], Vy as [Cy _].
  apply binary_normalize_nonzero; [|lia].
  pose proof (shl_align_inj my ey mx ex Cy Cx) as Hinj.
  destruct sx, sy; simpl in *; try lia; intros E;
    destruct Hinj as [-> ->]; try lia;
    rewrite Z.compare_refl in H;
    change (Pos.compare_cont Eq) with Pos.compare in H;
    rewrite Pos.compare_refl in H; done.
Qed.
End ieee.

(** [y - x] is non-zero when [x < y], so dividing by it does not raise. *)
Lemma sub_nonzero (x y : float) : (x <? y) = true → (y - x =? 0) = false.
Proof.
  rewrite FloatAxioms.ltb_spec, FloatAxioms.eqb_spec, FloatAxioms.sub_spec.
  unfold SFltb, SFeqb. intros H.
  destruct (SFcompare (Prim2SF x) (Prim2SF y)) as [[]|] eqn:E; try done.
  pose proof (SFsub_nonzero prec emax eq_refl _ _ false (Prim2SF_valid x) (Prim2SF_valid y) E) as N1.
  pose proof (SFsub_nonzero prec emax eq_refl _ _ true (Prim2SF_valid x) (Prim2SF_valid y) E) as N2.
  unfold SF64sub. change (Prim2SF 0) with (S754_zero false).
  destruct (SFsub prec emax (Prim2SF y) (Prim2SF x)) as [[]|[]| |[] m e]; simpl; congruence.
Qed.

End float_facts.

(** ** Facts about the builtins *)

Section builtin_facts.
Import PyFloat float_facts.

Lemma result_bind_Ok {A B} (r : result A) (k : A → result B) (b : B) :
  r ≫= k = Ok b → ∃ a, r = Ok a ∧ k a = Ok b.
Proof. destruct r as [a|e]; [eauto|done]. Qed.

Lemma getitem_nat {A} (s : pyseq A) (i : nat) (x : A) :
  items s !! i = Some x → getitem s (Z.of_nat i) = Ok x.
Proof.
  intros Hi. pose proof (lookup_lt_Some _ _ _ Hi) as Hlt.
  unfold getitem, len.
  destruct (Z.ltb_spec (Z.of_nat i) 0); [lia|].
  destruct (Z.ltb_spec (Z.of_nat i) 0); [lia|].
  destruct (Z.leb_spec (Z.of_nat (length (items s))) (Z.of_nat i)); [lia|].
  simpl. by rewrite Nat2Z.id, Hi.
Qed.

Lemma getitem_pred {A} (s : pyseq A) (i : nat) (x : A) :
  (1 ≤ i)%nat → items s !! (i - 1)%nat = Some x →
  getitem s (Z.of_nat i - 1) = Ok x.
Proof.
  intros ? Hi. replace (Z.of_nat i - 1)%Z with (Z.of_nat (i - 1)) by lia.
  by apply getitem_nat.
Qed.

Lemma getitem_last {A} (s : pyseq A) (x : A) :
  last (items s) = Some x → getitem s (-1) = Ok x.
Proof.
  intros Hl. unfold getitem, len. rewrite last_lookup in Hl.
  pose proof (lookup_lt_Some _ _ _ Hl) as Hlt. simpl.
  destruct (Z.ltb_spec (-1 + Z.of_nat (length (items s))) 0); [lia|].
  destruct (Z.leb_spec (Z.of_nat (length (items s)))
              (-1 + Z.of_nat (length (items s)))); [lia|].
  simpl.
  replace (Z.to_nat (-1 + Z.of_nat (length (items s))))
    with (pred (length (items s))) by lia.
  by rewrite Hl.
Qed.

(** The binary search stops within its bounds; the item before the result
    is not above [x] and the item at the result is.  No order on [a] is
    needed for this. *)
Lemma bisect_loop_spec (fuel : nat) (a : list float) (x : float) (lo hi : nat) :
  (hi - lo ≤ fuel)%nat → (lo ≤ hi ≤ length a)%nat →
  let r := bisect_loop fuel a x lo hi in
  (lo ≤ r ≤ hi)%nat ∧
  (r = lo ∨ ∃ y, a !! (r - 1)%nat = Some y ∧ (x <? y) = false) ∧
  (r = hi ∨ ∃ y, a !! r = Some y ∧ (x <? y) = true).
Proof.
  revert lo hi. induction fuel as [|fuel IH]; intros lo hi Hfuel Hb;
    cbv zeta; cbn [bisect_loop].
  { assert (lo = hi) by lia. subst. auto with lia. }
  destruct (Nat.ltb_spec lo hi) as [Hlt|Hge]; [|assert (lo = hi) by lia; subst; auto with lia].
  pose proof (Nat.div_mod_eq (lo + hi) 2) as Hdiv.
  pose proof (Nat.mod_upper_bound (lo + hi) 2) as Hmod.
  set (mid := ((lo + hi) / 2)%nat) in *.
  assert (lo ≤ mid < hi)%nat as Hmid by lia.
  destruct (lookup_lt_is_Some_2 a mid) as [y Hy]; [lia|]. rewrite Hy.
  destruct (x <? y) eqn:Hxy.
  - destruct (IH lo mid) as (Hr & Hl & Hh); [lia..|].
    split; [lia|split; [exact Hl|]]. destruct Hh as [->|Hh]; eauto.
  - destruct (IH (S mid) hi) as (Hr & Hl & Hh); [lia..|].
    split; [lia|split; [|exact Hh]]. destruct Hl as [->|Hl]; [|eauto].
    right. exists y. by rewrite Nat.sub_1_r.
Qed.

(** The fuel [bisect] gives the loop is enough: more fuel returns the same. *)
Lemma bisect_loop_fuel (fuel fuel' : nat) (a : list float) (x : float) (lo hi : nat) :
  (hi - lo ≤ fuel)%nat → (hi - lo ≤ fuel')%nat → (hi ≤ length a)%nat →
  bisect_loop fuel a x lo hi = bisect_loop fuel' a x lo hi.
Proof.
  revert fuel' lo hi. induction fuel as [|fuel IH]; intros [|fuel'] lo hi H1 H2 Hb;
    cbn [bisect_loop]; try done.
  - destruct (Nat.ltb_spec lo hi); [lia|done].
  - destruct (Nat.ltb_spec lo hi); [lia|done].
  - destruct (Nat.ltb_spec lo hi) as [Hlt|]; [|done].
    pose proof (Nat.div_mod_eq (lo + hi) 2) as Hdiv.
    pose proof (Nat.mod_upper_bound (lo + hi) 2) as Hmod.
    set (mid := ((lo + hi) / 2)%nat) in *.
    destruct (a !! mid) as [y|]; [|done].
    destruct (x <? y); apply IH; lia.
Qed.

Lemma bisect_spec (a : list float) (x : float) :
  let r := bisect a x in
  (r ≤ length a)%nat ∧
  (r = 0%nat ∨ ∃ y, a !! (r - 1)%nat = Some y ∧ (x <? y) = false) ∧
  (r = length a ∨ ∃ y, a !! r = Some y ∧ (x <? y) = true).
Proof.
  destruct (bisect_loop_spec (length a) a x 0 (length a)) as (? & ? & ?);
    [lia..|]. unfold bisect. auto with lia.
Qed.

Lemma map_result_length {A B} (f : A → result B) (l : list A) (r : list B) :
  map_result f l = Ok r → length r = length l.
Proof.
  revert r. induction l as [|x l IH]; intros r; simpl.
  - by intros [= <-].
  - intros (y & _ & (ys & Hys & [= <-])%result_bind_Ok)%result_bind_Ok.
    simpl. f_equal. by apply IH.
Qed.

Lemma zip3_fst {A B C} (P : A → Prop) (a : list A) (b : list B) (c : list C) :
  Forall P a → Forall (λ e, P e.1.1) (zip3 a b c).
Proof.
  intros Ha. revert b c. induction Ha as [|x a Hx Ha IH]; intros b c; [done|].
  destruct b as [|y b], c as [|z c]; simpl; try done.
  constructor; [done|apply IH].
Qed.

End builtin_facts.

(** ** Facts about the model of [sorted] *)

Section sorted_facts.
Context {A : Type} (lt : A → A → result bool).

Lemma sorted_insert_perm (x : A) (l r : list A) :
  sorted_insert lt x l = Ok r → r ≡ₚ x :: l.
Proof.
  revert r. induction l as [|y l IH]; intros r; simpl.
  - by intros [= <-].
  - intros ([] & _ & Hr)%result_bind_Ok.
    + apply result_bind_Ok in Hr as (r' & Hr' & [= <-]).
      rewrite (IH _ Hr'). apply Permutation_swap.
    + by injection Hr as <-.
Qed.

Lemma sorted_perm (l r : list A) : sorted lt l = Ok r → r ≡ₚ l.
Proof.
  revert r. induction l as [|x l IH]; intros r; simpl.
  - by intros [= <-].
  - intros (r' & Hr' & Hr)%result_bind_Ok.
    rewrite (sorted_insert_perm _ _ _ Hr). by rewrite (IH _ Hr').
Qed.

(** [sorted] returns when every comparison it can make returns. *)
Lemma sorted_insert_defined (x : A) (l : list A) :
  Forall (λ y, ∃ b, lt y x = Ok b) l → ∃ r, sorted_insert lt x l = Ok r.
Proof.
  induction 1 as [|y l [b Hb] _ [r Hr]]; simpl; [eauto|].
  rewrite Hb. simpl. destruct b; [|eauto]. rewrite Hr. simpl. eauto.
Qed.

Lemma sorted_defined (l : list A) :
  ForallOrdPairs (λ x y, ∃ b, lt y x = Ok b) l → ∃ r, sorted lt l = Ok r.
Proof.
  induction 1 as [|x l Hx _ [r Hr]]; simpl; [eauto|].
  rewrite Hr. simpl. apply sorted_insert_defined.
  rewrite Forall_forall in Hx. apply Forall_forall. intros y Hy.
  apply Hx. by rewrite <-(sorted_perm _ _ Hr).
Qed.

(** The result is sorted for every relation the comparison decides, on the
    elements where it does. *)
Context (P : A → Prop) (R : relation A).
Hypothesis lt_true : ∀ x y, P x → P y → lt y x = Ok true → R y x.
Hypothesis lt_false : ∀ x y, P x → P y → lt y x = Ok false → R x y.

Lemma sorted_insert_HdRel (z x : A) (l r : list A) :
  R z x → HdRel R z l → sorted_insert lt x l = Ok r → HdRel R z r.
Proof.
  destruct l as [|y l]; simpl.
  - intros ? _ [= <-]. by constructor.
  - intros Hzx Hzy ([] & _ & Hr)%result_bind_Ok.
    + apply result_bind_Ok in Hr as (r' & _ & [= <-]).
      constructor. by inversion Hzy.
    + injection Hr as <-. by constructor.
Qed.

Lemma sorted_insert_Sorted (x : A) (l r : list A) :
  P x → Forall P l → Sorted R l → sorted_insert lt x l = Ok r → Sorted R r.
Proof.
  intros Hx Hl Hs. revert r.
  induction Hs as [|y l Hs IH Hhd]; intros r; simpl.
  - intros [= <-]. by repeat constructor.
  - apply Forall_cons in Hl as [Hy Hl].
    intros ([] & Hb & Hr)%result_bind_Ok.
    + apply result_bind_Ok in Hr as (r' & Hr' & [= <-]).
      constructor; [by apply IH|].
      eapply sorted_insert_HdRel; [|done..]. by apply lt_true.
    + injection Hr as <-. constructor; [by constructor|].
      constructor. by apply lt_false.
Qed.

Lemma sorted_Sorted (l r : list A) :
  Forall P l → sorted lt l = Ok r → Sorted R r.
Proof.
  revert r. induction l as [|x l IH]; intros r Hl; simpl.
  - intros [= <-]. constructor.
  - apply Forall_cons in Hl as [Hx Hl].
    intros (r' & Hr' & Hr)%result_bind_Ok.
    eapply sorted_insert_Sorted; [done| |by apply IH|done].
    by rewrite (sorted_perm _ _ Hr').
Qed.

End sorted_facts.

(** ** Ascending lists of floats *)

Module order.
Import PyFloat float_facts.

(** Sorted ascending, as a sequence of numbers. *)
Definition ascending (l : list float) : Prop :=
  Forall (λ x, is_number x = true) l ∧ Sorted (λ x y, (x <=? y) = true) l.

Lemma ascending_StronglySorted (l : list float) :
  ascending l → StronglySorted (λ x y, (x <=? y) = true) l.
Proof.
  intros [_ Hs]. apply Sorted.Sorted_StronglySorted; [|done].
  intros x y z. apply leb_trans.
Qed.

Lemma ascending_lookup (l : list float) (i j : nat) (x y : float) :
  ascending l → (i ≤ j)%nat → l !! i = Some x → l !! j = Some y →
  (x <=? y) = true.
Proof.
  intros Ha. pose proof (ascending_StronglySorted l Ha) as Hs.
  destruct Ha as [Hnum _]. revert i j.
  induction Hs as [|a l Hs IH Hall]; intros i j Hij Hi Hj; [done|].
  apply Forall_cons in Hnum as [Ha Hnum].
  destruct i as [|i], j as [|j]; simpl in *; try lia.
  - injection Hi as <-. injection Hj as <-. by apply leb_refl.
  - injection Hi as <-. eapply Forall_lookup_1 in Hall; [exact Hall|exact Hj].
  - eapply (IH Hnum i j); [lia|done..].
Qed.

(** On ascending keyframes [bisect] splits the list into the items not above
    [x] and the items above it. *)
Lemma bisect_ascending (a : list float) (x : float) :
  ascending a → is_number x = true →
  Forall (λ y, (y <=? x) = true) (take (bisect a x) a) ∧
  Forall (λ y, (x <? y) = true) (drop (bisect a x) a).
Proof.
  intros Ha Hx. destruct (bisect_spec a x) as (Hr & Hlo & Hhi).
  set (r := bisect a x) in *. split; apply Forall_lookup; intros j y Hj.
  - apply lookup_take_Some in Hj as [Hj Hjr].
    destruct Hlo as [?|(z & Hz & Hxz)]; [lia|].
    eapply leb_trans; [eapply (ascending_lookup a j (r - 1)); [done|lia|done..]|].
    apply not_ltb_leb; [done| |done].
    destruct Ha as [Hnum _]. eapply Forall_lookup_1 in Hnum; [exact Hnum|exact Hz].
  - rewrite lookup_drop in Hj.
    destruct Hhi as [?|(z & Hz & Hxz)].
    { apply lookup_lt_Some in Hj. lia. }
    eapply ltb_leb_trans; [done|].
    eapply (ascending_lookup a r (r + j)); [done|lia|done..].
Qed.

Lemma list_insert_at_ascending (a : list float) (x : float) :
  ascending a → is_number x = true →
  ascending (list_insert_at (bisect a x) x a).
Proof.
  intros Ha Hx. destruct (bisect_ascending a x Ha Hx) as [Hbefore Hafter].
  pose proof (ascending_StronglySorted a Ha) as Hs.
  destruct Ha as [Hnum _]. unfold list_insert_at.
  set (r := bisect a x) in *.
  rewrite <-(take_drop r a) in Hs.
  apply StronglySorted_app in Hs as (Hcross & Hs1 & Hs2).
  split.
  - apply Forall_app. split; [by apply Forall_take|].
    constructor; [done|by apply Forall_drop].
  - apply StronglySorted_Sorted, StronglySorted_app. split_and!; [|done|].
    + intros y z Hy [->|Hz]%elem_of_cons.
      * rewrite Forall_forall in Hbefore. by apply Hbefore.
      * by apply Hcross.
    + constructor; [done|].
      eapply Forall_impl; [exact Hafter|]. intros z. apply ltb_leb.
Qed.

Lemma length_list_insert_at {A} (i : nat) (x : A) (l : list A) :
  length (list_insert_at i x l) = S (length l).
Proof.
  unfold list_insert_at. rewrite length_app. simpl.
  rewrite length_take, length_drop. lia.
Qed.

Lemma Sorted_fmap {A B} (R : relation B) (f : A → B) (l : list A) :
  Sorted (λ x y, R (f x) (f y)) l → Sorted R (f <$> l).
Proof.
  induction 1 as [|x l _ IH Hhd]; simpl; constructor; [done|].
  destruct Hhd; simpl; by constructor.
Qed.

End order.

(** ** The class invariant of [Motion] *)

Module motion_spec.
Import PyFloat motion order.

(** The three sequences are aligned and the keyframes ascend. *)
Record Motion_inv (self : Motion) : Prop := {
  inv_values : length (items (values self)) = length (items (keyframes self));
  inv_motion_types :
    length (items (motion_types self)) = length (items (keyframes self));
  inv_ascending : ascending (items (keyframes self));
}.

(** A fresh curve satisfies it. *)
Lemma init_invariant (dv : option value) : Motion_inv (__init__ dv).
Proof. split; [done..|]. split; constructor. Qed.

End motion_spec.

(** ** Properties of [Motion.__call__] *)

Module motion_call.
Import PyFloat float_facts order motion motion_spec.

Ltac run_method :=
  unfold mbind, method_bind, mret, method_ret, get, lift, raise, modify, assert;
  cbn beta iota.

Lemma len_length {A} (s : pyseq A) : len s = Z.of_nat (length (items s)).
Proof. done. Qed.

(** C1. Between the first and the last keyframe (from the first one on,
    strictly before the last), [__call__] finds the pair of keyframes around
    the time with [bisect], normalises the time to [t], applies the easing
    stored with the earlier keyframe and interpolates linearly, both
    components of a tuple with the same eased [t].  The division never
    raises. *)
Theorem call_interpolates `{Libm} (self : Motion) (time first_ last_ : float) :
  Motion_inv self →
  (2 ≤ length (items (keyframes self)))%nat →
  items (keyframes self) !! 0%nat = Some first_ →
  last (items (keyframes self)) = Some last_ →
  (first_ <=? time) = true →
  (time <? last_) = true →
  ∃ (i : nat) (kp ki : float) (m M : value) (f : easing),
    bisect (items (keyframes self)) time = i ∧
    (1 ≤ i < length (items (keyframes self)))%nat ∧
    items (keyframes self) !! (i - 1)%nat = Some kp ∧
    items (keyframes self) !! i = Some ki ∧
    items (values self) !! (i - 1)%nat = Some m ∧
    items (values self) !! i = Some M ∧
    items (motion_types self) !! (i - 1)%nat = Some f ∧
    (kp <=? time) = true ∧ (time <? ki) = true ∧
    let t := (time - kp) / (ki - kp) in
    __call__ time self = (eased ← easing_call f t; interpolate m M eased, self) ∧
    ∀ eased, easing_call f t = Ok eased →
      (∀ a b, m = VFloat a → M = VFloat b →
         __call__ time self = (Ok (VFloat (a + (b - a) * eased)), self)) ∧
      (∀ a0 a1 b0 b1, m = VTuple a0 a1 → M = VTuple b0 b1 →
         __call__ time self =
           (Ok (VTuple (a0 + (b0 - a0) * eased) (a1 + (b1 - a1) * eased)), self)).
Proof.
  intros [Hv Hm [Hnum Hsort]] Hn Hfirst Hlast Hft Htl.
  set (ks := items (keyframes self)) in *.
  destruct (bisect_spec ks time) as (Hi & Hlo & Hhi).
  set (i := bisect ks time) in *.
  assert (i ≠ 0%nat) as Hi0.
  { intros E. rewrite E in Hhi. destruct Hhi as [?|(y & Hy & Hlt)]; [lia|].
    rewrite Hfirst in Hy. injection Hy as <-.
    apply leb_not_ltb in Hft. congruence. }
  assert (i ≠ length ks) as Hin.
  { intros E. rewrite E in Hlo. destruct Hlo as [?|(y & Hy & Hlt)]; [lia|].
    rewrite last_lookup in Hlast.
    replace (length ks - 1)%nat with (pred (length ks)) in Hy by lia.
    rewrite Hlast in Hy. injection Hy as <-. congruence. }
  destruct Hlo as [?|(kp & Hkp & Hkpt)]; [done|].
  destruct Hhi as [?|(ki & Hki & Hkit)]; [done|].
  destruct (lookup_lt_is_Some_2 (items (values self)) (i - 1)) as [m Hmv]; [lia|].
  destruct (lookup_lt_is_Some_2 (items (values self)) i) as [M HMv]; [lia|].
  destruct (lookup_lt_is_Some_2 (items (motion_types self)) (i - 1)) as [f Hf]; [lia|].
  assert ((kp <=? time) = true) as Hle.
  { apply not_ltb_leb; [by apply ltb_number in Htl as [? ?]| |done].
    eapply Forall_lookup_1 in Hnum; [exact Hnum|exact Hkp]. }
  exists i, kp, ki, m, M, f. split_and!; try done; try lia.
  assert (__call__ time self =
          (eased ← easing_call f ((time - kp) / (ki - kp));
           interpolate m M eased, self)) as Hcall.
  { unfold __call__. run_method.
    rewrite len_length. fold ks.
    destruct (Z.eqb_spec (Z.of_nat (length ks)) 0); [lia|].
    destruct (Z.eqb_spec (Z.of_nat (length ks)) 1); [lia|].
    rewrite (getitem_nat (keyframes self) 0 first_ Hfirst : getitem _ 0 = _).
    rewrite (leb_not_ltb _ _ Hft).
    rewrite (getitem_last (keyframes self) last_ Hlast).
    rewrite (ltb_not_leb _ _ Htl).
    fold i.
    rewrite (getitem_pred (values self) i m), (getitem_nat (values self) i M),
      (getitem_nat (keyframes self) i ki), (getitem_pred (keyframes self) i kp),
      (getitem_pred (motion_types self) i f) by (done || lia).
    unfold truediv.
    rewrite (sub_nonzero kp ki) by (by eapply leb_ltb_trans).
    by destruct (easing_call f _). }
  cbv zeta. split; [done|].
  intros eased He. rewrite Hcall, He.
  split; intros; subst; done.
Qed.

(** The curve of the specification's example: keyframes [(0.0, 0.0)] and
    [(10.0, 100.0)], both appended with the default easing. *)
Definition two_keyframes : Motion :=
  {| keyframes := PyList [0; 10]; values := PyList [VFloat 0; VFloat 100];
     motion_types := PyList [linear; linear]; default_value := None |}.

Lemma call_interpolates_witness :
  two_keyframes = (append 10 (VFloat 100) "linear"
                     (append 0 (VFloat 0) "linear" (__init__ None)).2).2 ∧
  __call__ (H := linear_only) 5 two_keyframes = (Ok (VFloat 50), two_keyframes).
Proof.
  split; [reflexivity|].
  assert (Motion_inv two_keyframes) as Hinv
    by (split; [reflexivity..|]; split; repeat constructor).
  destruct (call_interpolates (H := linear_only) two_keyframes 5 0 10
              Hinv (le_n 2) eq_refl eq_refl eq_refl eq_refl)
    as (i & kp & ki & m & M & f & Hi & _ & Hkp & Hki & Hm & HM & Hf & _ & _ & _ & Hcase).
  vm_compute in Hi. subst i. simpl in Hkp, Hki, Hm, HM, Hf.
  injection Hkp as <-. injection Hki as <-. injection Hm as <-.
  injection HM as <-. injection Hf as <-.
  destruct (Hcase 0.5 eq_refl) as [Hscalar _].
  exact (Hscalar 0 100 eq_refl eq_refl).
Defined.

(** A curve with one keyframe returns its value whatever the time is. *)
Lemma call_single_keyframe `{Libm} (self : Motion) (time : float) (v : value) :
  length (items (keyframes self)) = 1%nat →
  items (values self) !! 0%nat = Some v →
  __call__ time self = (Ok v, self).
Proof.
  intros E Hv. unfold __call__. run_method. rewrite len_length, E. simpl.
  by rewrite (getitem_nat (values self) 0 v Hv : getitem _ 0 = _).
Qed.

(** C3. With at least one keyframe, [__call__] clamps: before the first
    keyframe it returns the first value, at or after the last keyframe the
    last value; a curve with one keyframe returns its value at every time. *)
Theorem call_clamps `{Libm} (self : Motion) (time : float) :
  Motion_inv self →
  (1 ≤ length (items (keyframes self)))%nat →
  ∃ (first_ last_ : float) (v0 vn : value),
    items (keyframes self) !! 0%nat = Some first_ ∧
    last (items (keyframes self)) = Some last_ ∧
    items (values self) !! 0%nat = Some v0 ∧
    last (items (values self)) = Some vn ∧
    ((time <? first_) = true → __call__ time self = (Ok v0, self)) ∧
    ((last_ <=? time) = true → __call__ time self = (Ok vn, self)) ∧
    (length (items (keyframes self)) = 1%nat →
     v0 = vn ∧ __call__ time self = (Ok v0, self)).
Proof.
  intros [Hv Hm Hasc] Hn.
  set (ks := items (keyframes self)) in *.
  set (vs := items (values self)) in *.
  destruct (lookup_lt_is_Some_2 ks 0) as [first_ Hfirst]; [lia|].
  destruct (lookup_lt_is_Some_2 ks (pred (length ks))) as [last_ Hlast]; [lia|].
  destruct (lookup_lt_is_Some_2 vs 0) as [v0 Hv0]; [lia|].
  destruct (lookup_lt_is_Some_2 vs (pred (length vs))) as [vn Hvn]; [lia|].
  rewrite <-last_lookup in Hlast. rewrite <-last_lookup in Hvn.
  exists first_, last_, v0, vn. split_and!; try done.
  - intros Hlt. unfold __call__. run_method. rewrite len_length. fold ks.
    destruct (Z.eqb_spec (Z.of_nat (length ks)) 0); [lia|].
    destruct (Z.eqb_spec (Z.of_nat (length ks)) 1).
    { by rewrite (getitem_nat (values self) 0 v0 Hv0 : getitem _ 0 = _). }
    rewrite (getitem_nat (keyframes self) 0 first_ Hfirst : getitem _ 0 = _).
    rewrite Hlt.
    by rewrite (getitem_nat (values self) 0 v0 Hv0 : getitem _ 0 = _).
  - intros Hle. unfold __call__. run_method. rewrite len_length. fold ks.
    destruct (Z.eqb_spec (Z.of_nat (length ks)) 0); [lia|].
    destruct (Z.eqb_spec (Z.of_nat (length ks)) 1) as [E|E].
    { rewrite (getitem_nat (values self) 0 v0 Hv0 : getitem _ 0 = _).
      rewrite last_lookup in Hvn. fold vs in Hv.
      replace (pred (length vs)) with 0%nat in Hvn by lia. congruence. }
    rewrite (getitem_nat (keyframes self) 0 first_ Hfirst : getitem _ 0 = _).
    assert ((first_ <=? last_) = true) as Hfl.
    { rewrite last_lookup in Hlast.
      eapply (ascending_lookup ks 0 (pred (length ks))); [done|lia|done..]. }
    rewrite (leb_not_ltb first_ time) by (by eapply leb_trans).
    rewrite (getitem_last (keyframes self) last_ Hlast), Hle.
    by rewrite (getitem_last (values self) vn Hvn).
  - intros E. rewrite last_lookup in Hvn. fold vs in Hv.
    replace (pred (length vs)) with 0%nat in Hvn by lia.
    split; [congruence|]. by apply call_single_keyframe.
Qed.

(** The curve with the single keyframe [(5.0, 10.0)]. *)
Definition single_keyframe : Motion :=
  {| keyframes := PyList [5]; values := PyList [VFloat 10];
     motion_types := PyList [linear]; default_value := None |}.

Lemma call_clamps_witness :
  __call__ (H := linear_only) (-1) two_keyframes = (Ok (VFloat 0), two_keyframes) ∧
  __call__ (H := linear_only) 11 two_keyframes = (Ok (VFloat 100), two_keyframes) ∧
  __call__ (H := linear_only) 10 two_keyframes = (Ok (VFloat 100), two_keyframes) ∧
  __call__ (H := linear_only) 3 single_keyframe = (Ok (VFloat 10), single_keyframe).
Proof.
  assert (Motion_inv two_keyframes) as Hinv2
    by (split; [reflexivity..|]; split; repeat constructor).
  assert (Motion_inv single_keyframe) as Hinv1
    by (split; [reflexivity..|]; split; repeat constructor).
  split_and!.
  - destruct (call_clamps (H := linear_only) two_keyframes (-1) Hinv2 (le_S _ _ (le_n 1)))
      as (first_ & last_ & v0 & vn & Hf & _ & Hv0 & _ & Hleft & _).
    simpl in Hf, Hv0. injection Hf as <-. injection Hv0 as <-.
    exact (Hleft eq_refl).
  - destruct (call_clamps (H := linear_only) two_keyframes 11 Hinv2 (le_S _ _ (le_n 1)))
      as (first_ & last_ & v0 & vn & _ & Hl & _ & Hvn & _ & Hright & _).
    simpl in Hl, Hvn. injection Hl as <-. injection Hvn as <-.
    exact (Hright eq_refl).
  - destruct (call_clamps (H := linear_only) two_keyframes 10 Hinv2 (le_S _ _ (le_n 1)))
      as (first_ & last_ & v0 & vn & _ & Hl & _ & Hvn & _ & Hright & _).
    simpl in Hl, Hvn. injection Hl as <-. injection Hvn as <-.
    exact (Hright eq_refl).
  - destruct (call_clamps (H := linear_only) single_keyframe 3 Hinv1 (le_n 1))
      as (first_ & last_ & v0 & vn & _ & _ & Hv0 & _ & _ & _ & Hone).
    simpl in Hv0. injection Hv0 as <-. exact (proj2 (Hone eq_refl)).
Defined.

(** The single keyframe [(5.0, 10.0)] gives [10.0] at every time. *)
Lemma single_keyframe_constant (t : float) :
  __call__ (H := linear_only) t single_keyframe = (Ok (VFloat 10), single_keyframe).
Proof. by apply call_single_keyframe. Qed.

(** C8. Without keyframes [__call__] returns the default value when there is
    one and raises [ValueError('No keyframes')] otherwise; the curve is as it
    was. *)
Theorem call_without_keyframes `{Libm} (self : Motion) (time : float) :
  length (items (keyframes self)) = 0%nat →
  __call__ time self =
    (match default_value self with
     | Some v => Ok v
     | None => Raise (ValueError "No keyframes")
     end, self).
Proof.
  intros Hn. unfold __call__. run_method. rewrite len_length, Hn. simpl.
  by destruct (default_value self).
Qed.

Lemma call_without_keyframes_witness :
  __call__ (H := linear_only) 3 (__init__ (Some (VFloat 7)))
    = (Ok (VFloat 7), __init__ (Some (VFloat 7))) ∧
  __call__ (H := linear_only) 3 (__init__ None)
    = (Raise (ValueError "No keyframes"), __init__ None).
Proof.
  split.
  - exact (call_without_keyframes (H := linear_only)
             (__init__ (Some (VFloat 7))) 3 eq_refl).
  - exact (call_without_keyframes (H := linear_only) (__init__ None) 3 eq_refl).
Defined.

End motion_call.

(** ** Properties of [Motion.append] and [Motion.extend] *)

Module motion_mutation.
Import PyFloat float_facts order motion motion_spec motion_call.

(** What [append] does to a curve that holds lists. *)
Lemma append_lists ks vs ms dv keyframe value motion_type :
  let i := bisect ks keyframe in
  append keyframe value motion_type
    {| keyframes := PyList ks; values := PyList vs; motion_types := PyList ms;
       default_value := dv |} =
  match func_of_name motion_type with
  | Ok f =>
      (Ok (), {| keyframes := PyList (list_insert_at i keyframe ks);
                 values := PyList (list_insert_at i (_cast value) vs);
                 motion_types := PyList (list_insert_at i f ms);
                 default_value := dv |})
  | Raise e =>
      (Raise e, {| keyframes := PyList (list_insert_at i keyframe ks);
                   values := PyList (list_insert_at i (_cast value) vs);
                   motion_types := PyList ms;
                   default_value := dv |})
  end.
Proof.
  unfold append. run_method. cbn.
  by destruct (func_of_name motion_type).
Qed.

(** On a curve whose keyframes are a tuple the first [insert] fails. *)
Lemma append_tuple self keyframe value motion_type ks :
  keyframes self = PyTuple ks →
  append keyframe value motion_type self = (Raise AttributeError, self).
Proof. intros E. unfold append. run_method. by rewrite E. Qed.

Lemma append_Ok self self' keyframe value motion_type :
  append keyframe value motion_type self = (Ok (), self') →
  ∃ ks vs ms f,
    self = {| keyframes := PyList ks; values := PyList vs;
              motion_types := PyList ms; default_value := default_value self |} ∧
    func_of_name motion_type = Ok f ∧
    self' = {| keyframes := PyList (list_insert_at (bisect ks keyframe) keyframe ks);
               values := PyList (list_insert_at (bisect ks keyframe) (_cast value) vs);
               motion_types := PyList (list_insert_at (bisect ks keyframe) f ms);
               default_value := default_value self |}.
Proof.
  destruct self as [[ks|ks] [vs|vs] [ms|ms] dv]; simpl;
    try (unfold append; run_method; cbn; congruence).
  rewrite append_lists. destruct (func_of_name motion_type) as [f|e] eqn:E;
    [|congruence].
  intros [= <-]. by exists ks, vs, ms, f.
Qed.

(** C4, as the code behaves.  The easing name is looked up after the keyframe
    and the value have been inserted: an unknown name raises [KeyError] and
    leaves [keyframes] and [values] one item longer than [motion_types]. *)
Theorem append_unknown_easing_modifies :
  motion_types_to_func !! "bogus"%string = None ∧
  append 1 (VFloat 2) "bogus" (__init__ None) =
    (Raise (KeyError "bogus"),
     {| keyframes := PyList [1]; values := PyList [VFloat 2];
        motion_types := PyList []; default_value := None |}).
Proof. split; reflexivity. Qed.

(** The sibling path: [extend] with an unknown name raises before it assigns
    anything. *)
Lemma extend_unknown_easing_unmodified :
  extend [1] [VFloat 2] (Some ["bogus"%string]) (__init__ None) =
    (Raise (KeyError "bogus"), __init__ None).
Proof. reflexivity. Qed.

(** The easing names [extend] works with. *)
Definition names_of (n : nat) (motion_types_ : option (list string)) : list string :=
  match motion_types_ with
  | None => replicate n "linear"%string
  | Some names => names
  end.

Definition time_of (e : entry) : float := e.1.1.

(** What [extend] does to a curve that holds lists. *)
Lemma extend_lists ks0 vs0 ms0 dv ks vs names :
  extend ks vs names
    {| keyframes := PyList ks0; values := PyList vs0; motion_types := PyList ms0;
       default_value := dv |} =
  let self := {| keyframes := PyList ks0; values := PyList vs0;
                 motion_types := PyList ms0; default_value := dv |} in
  if negb (bool_decide (length ks = length vs)) then (Raise AssertionError, self)
  else if negb (bool_decide (length ks = length (names_of (length ks) names)))
  then (Raise AssertionError, self)
  else
    match
      funcs ← map_result func_of_name (names_of (length ks) names);
      zipped ← sorted entry_lt (zip3 (ks0 ++ ks) (vs0 ++ map _cast vs) (ms0 ++ funcs));
      unzip3 zipped
    with
    | Ok (k, v, m) =>
        (Ok (), {| keyframes := k; values := v; motion_types := m;
                   default_value := dv |})
    | Raise e => (Raise e, self)
    end.
Proof.
  unfold extend. run_method. cbn.
  destruct (bool_decide (length ks = length vs)); simpl; [|done].
  destruct names as [names|]; simpl.
  - destruct (bool_decide (length ks = length names)); simpl; [|done].
    rewrite map_id.
    destruct (map_result func_of_name names) as [funcs|]; simpl; [|done].
    destruct (sorted entry_lt _) as [zipped|]; simpl; [|done].
    by destruct (unzip3 zipped) as [[[??]?]|].
  - rewrite length_replicate, bool_decide_true by done. simpl.
    rewrite map_id.
    destruct (map_result func_of_name _) as [funcs|]; simpl; [|done].
    destruct (sorted entry_lt _) as [zipped|]; simpl; [|done].
    by destruct (unzip3 zipped) as [[[??]?]|].
Qed.

(** On a curve whose keyframes are a tuple [extend] fails and assigns
    nothing. *)
Lemma extend_tuple self ks vs names ks0 :
  keyframes self = PyTuple ks0 →
  ∃ e, extend ks vs names self = (Raise e, self).
Proof.
  intros E. unfold extend. run_method. cbn.
  destruct (bool_decide (length ks = length vs)); simpl; [|eauto].
  destruct names as [names|]; simpl.
  - destruct (bool_decide (length ks = length names)); simpl; [|eauto].
    rewrite E. simpl. eauto.
  - rewrite E. simpl. eauto.
Qed.

Lemma extend_Ok self self' ks vs names :
  extend ks vs names self = (Ok (), self') →
  ∃ ks0 vs0 ms0 funcs zipped,
    self = {| keyframes := PyList ks0; values := PyList vs0;
              motion_types := PyList ms0; default_value := default_value self |} ∧
    length ks = length vs ∧
    map_result func_of_name (names_of (length ks) names) = Ok funcs ∧
    sorted entry_lt (zip3 (ks0 ++ ks) (vs0 ++ map _cast vs) (ms0 ++ funcs))
      = Ok zipped ∧
    zipped ≠ [] ∧
    self' = {| keyframes := PyTuple (map time_of zipped);
               values := PyTuple (map (λ e, e.1.2) zipped);
               motion_types := PyTuple (map (λ e, e.2) zipped);
               default_value := default_value self |}.
Proof.
  destruct self as [[ks0|ks0] vals mts dv].
  2:{ intros H. destruct (extend_tuple
        {| keyframes := PyTuple ks0; values := vals; motion_types := mts;
           default_value := dv |} ks vs names ks0 eq_refl) as [e He].
      congruence. }
  destruct vals as [vs0|vs0], mts as [ms0|ms0];
    try (unfold extend; run_method; cbn;
         destruct (bool_decide (length ks = length vs)); simpl; [|congruence];
         destruct names as [names|]; simpl;
         [destruct (bool_decide (length ks = length names)); simpl; [|congruence]|];
         try (destruct (map_result func_of_name _); simpl); congruence).
  rewrite extend_lists. cbv zeta.
  destruct (bool_decide_reflect (length ks = length vs)); simpl; [|congruence].
  destruct (bool_decide (length ks = length _)); simpl; [|congruence].
  destruct (map_result func_of_name _) as [funcs|]; simpl; [|congruence].
  destruct (sorted entry_lt _) as [zipped|] eqn:Hz; simpl; [|congruence].
  destruct zipped as [|z zipped]; simpl; [congruence|].
  intros [= <-]. by exists ks0, vs0, ms0, funcs, (z :: zipped).
Qed.

(** *** Order of the keyframes after a mutation *)

Definition time_le (a b : entry) : Prop := (time_of a <=? time_of b) = true.

Lemma entry_lt_true (x y : entry) : entry_lt y x = Ok true → time_le y x.
Proof.
  destruct x as [[kx vx] fx], y as [[ky vy] fy]. unfold time_le, entry_lt. simpl.
  destruct (ky =? kx) eqn:E; simpl.
  - intros _. by apply eqb_leb.
  - intros [= Hlt]. by apply ltb_leb.
Qed.

Lemma entry_lt_false (x y : entry) :
  is_number (time_of x) = true → is_number (time_of y) = true →
  entry_lt y x = Ok false → time_le x y.
Proof.
  destruct x as [[kx vx] fx], y as [[ky vy] fy]. unfold time_le, entry_lt. simpl.
  intros Hx Hy. destruct (ky =? kx) eqn:E; simpl.
  - intros _. apply eqb_leb. by rewrite eqb_sym.
  - intros [= Hlt]. by apply not_ltb_leb.
Qed.

(** C7. [append] and [extend], when they return, keep the keyframes sorted
    ascending and the three sequences aligned.  The times put in are
    numbers. *)
Theorem mutation_preserves_invariant (self : Motion) :
  Motion_inv self →
  (∀ keyframe value motion_type self',
     is_number keyframe = true →
     append keyframe value motion_type self = (Ok (), self') →
     Motion_inv self') ∧
  (∀ keyframes_ values_ motion_types_ self',
     Forall (λ k, is_number k = true) keyframes_ →
     extend keyframes_ values_ motion_types_ self = (Ok (), self') →
     Motion_inv self').
Proof.
  intros [Hv Hm Hasc]. split.
  - intros k v name self' Hk (ks & vs & ms & f & Hself & _ & ->)%append_Ok.
    rewrite Hself in Hv, Hm, Hasc. simpl in *. split; simpl.
    + rewrite !length_list_insert_at. by rewrite Hv.
    + rewrite !length_list_insert_at. by rewrite Hm.
    + by apply list_insert_at_ascending.
  - intros ks vs names self' Hks
      (ks0 & vs0 & ms0 & funcs & zipped & Hself & Hlen & Hf & Hz & _ & ->)%extend_Ok.
    rewrite Hself in Hv, Hm, Hasc. simpl in *. split; simpl.
    + by rewrite !length_map.
    + by rewrite !length_map.
    + assert (Forall (λ e, is_number (time_of e) = true)
                (zip3 (ks0 ++ ks) (vs0 ++ map _cast vs) (ms0 ++ funcs))) as Hnum.
      { apply (zip3_fst (λ k, is_number k = true)).
        apply Forall_app. split; [|done]. by destruct Hasc. }
      split.
      * apply Forall_fmap. by rewrite (sorted_perm _ _ _ Hz).
      * apply (Sorted_fmap (λ x y, (x <=? y) = true) time_of).
        eapply (sorted_Sorted entry_lt _ time_le); [| |exact Hnum|exact Hz].
        -- intros x y _ _. apply entry_lt_true.
        -- intros x y. apply entry_lt_false.
Qed.

Lemma mutation_preserves_invariant_witness :
  Motion_inv (append 5 (VFloat 50) "ease_in" two_keyframes).2 ∧
  Motion_inv (extend [7; 3] [VFloat 70; VFloat 30] None two_keyframes).2.
Proof.
  assert (Motion_inv two_keyframes) as Hinv
    by (split; [reflexivity..|]; split; repeat constructor).
  destruct (mutation_preserves_invariant two_keyframes Hinv) as [Happend Hextend].
  split.
  - exact (Happend 5 (VFloat 50) "ease_in"%string _ eq_refl eq_refl).
  - refine (Hextend [7; 3] [VFloat 70; VFloat 30] None _ _ eq_refl).
    repeat constructor.
Defined.

(** Sorted ascending in the weakest sense: no keyframe is less than an
    earlier one. *)
Definition no_inversion (l : list float) : Prop :=
  ∀ i j a b, (i < j)%nat → l !! i = Some a → l !! j = Some b → (b <? a) = false.

Definition aligned (self : Motion) : Prop :=
  length (items (values self)) = length (items (keyframes self)) ∧
  length (items (motion_types self)) = length (items (keyframes self)).

(** One keyframe, at 5. *)
Definition one_keyframe : Motion :=
  {| keyframes := PyList [5]; values := PyList [VFloat 50];
     motion_types := PyList [linear]; default_value := None |}.

(** [bisect] puts NaN past the end, and what is appended next is compared
    with NaN on its way: 1 ends up behind 5. *)
Lemma append_nan_then_one :
  Motion_inv one_keyframe ∧
  ∃ self1 self2,
    append nan (VFloat 0) "linear" one_keyframe = (Ok (), self1) ∧
    append 1 (VFloat 10) "linear" self1 = (Ok (), self2) ∧
    keyframes self1 = PyList [5; nan] ∧
    keyframes self2 = PyList [5; nan; 1].
Proof.
  split.
  - split; [reflexivity..|]. split; repeat constructor.
  - eexists _, _. split_and!; vm_compute; reflexivity.
Qed.

(** C7 as stated, for every time, fails on NaN.  Read with the weakest sense
    of sorted, appending NaN and then 1 to the keyframe 5 gives 5, NaN, 1;
    read with [<=] between neighbours, appending NaN alone breaks it. *)
Lemma append_nan_unsorted :
  ¬ (∀ (self self' : Motion) keyframe value motion_type,
       aligned self → no_inversion (items (keyframes self)) →
       append keyframe value motion_type self = (Ok (), self') →
       aligned self' ∧ no_inversion (items (keyframes self'))) ∧
  ¬ (∀ (self self' : Motion) keyframe value motion_type,
       Motion_inv self →
       append keyframe value motion_type self = (Ok (), self') →
       Motion_inv self').
Proof.
  split; intros Hclaim.
  2:{ destruct append_nan_then_one as [Hinv _].
      destruct (Hclaim one_keyframe _ nan (VFloat 0) "linear"%string Hinv eq_refl)
        as [_ _ [Hnum _]].
      simpl in Hnum. by apply Forall_cons in Hnum as [_ [Hnan _]%Forall_cons]. }
  set (self1 := (append nan (VFloat 0) "linear" one_keyframe).2).
  set (self2 := (append 1 (VFloat 10) "linear" self1).2).
  destruct (Hclaim one_keyframe self1 nan (VFloat 0) "linear"%string)
    as [Hal Hno]; [by split| |by vm_compute|].
  { intros [|i] [|j] a b Hij; simpl; try lia; done. }
  destruct (Hclaim self1 self2 1 (VFloat 10) "linear"%string Hal Hno) as [_ Hbad];
    [by vm_compute|].
  by specialize (Hbad 0%nat 2%nat 5 1 ltac:(lia) eq_refl eq_refl).
Qed.

(** C5, as the code behaves.  [sorted] compares whole [(time, value, easing)]
    tuples, so among equal times the smaller value comes first, whether old or
    new, and equal times and values with different easings cannot be compared
    at all.  [append] on the same curve puts the new keyframe after the old
    one. *)
Theorem extend_ties_break_by_value :
  let old := (append 1 (VFloat 5) "linear" (__init__ None)).2 in
  extend [1] [VFloat 3] None old =
    (Ok (), {| keyframes := PyTuple [1; 1];
               values := PyTuple [VFloat 3; VFloat 5];
               motion_types := PyTuple [linear; linear];
               default_value := None |}) ∧
  extend [1] [VFloat 5] (Some ["ease_in"%string]) old = (Raise TypeError, old) ∧
  append 1 (VFloat 3) "linear" old =
    (Ok (), {| keyframes := PyList [1; 1];
               values := PyList [VFloat 5; VFloat 3];
               motion_types := PyList [linear; linear];
               default_value := None |}).
Proof. repeat split; reflexivity. Qed.

(** *** A curve that [extend] has returned from holds tuples *)

Lemma call_unmodified `{Libm} (self : Motion) (time : float) :
  (__call__ time self).2 = self.
Proof.
  unfold __call__. run_method.
  repeat (match goal with
          | |- context [match ?x with _ => _ end] => destruct x
          end; simpl; try done).
Qed.

(** The calls a client can make on a curve. *)
Inductive operation :=
  | Append (keyframe : float) (value : value) (motion_type : string)
  | Extend (keyframes_ : list float) (values_ : list value)
           (motion_types_ : option (list string))
  | Call (layer_time : float).

(** The curve after the call, whether it returned or raised. *)
Definition perform `{Libm} (self : Motion) (op : operation) : Motion :=
  match op with
  | Append k v name => (append k v name self).2
  | Extend ks vs names => (extend ks vs names self).2
  | Call t => (__call__ t self).2
  end.

Lemma perform_tuple `{Libm} (self : Motion) (ops : list operation) ks :
  keyframes self = PyTuple ks → foldl perform self ops = self.
Proof.
  intros E. induction ops as [|op ops IH]; simpl; [done|].
  assert (perform self op = self) as ->; [|done].
  destruct op as [k v name|ks' vs names|t]; simpl.
  - by erewrite append_tuple.
  - by destruct (extend_tuple self ks' vs names ks E) as [e ->].
  - apply call_unmodified.
Qed.

(** C10. Once [extend] has returned, the sequences are tuples: after any
    further calls the curve is still the one [extend] left, and [append] on it
    raises and changes nothing, whatever its arguments. *)
Theorem append_after_extend_raises `{Libm} (self self' : Motion)
    keyframes_ values_ motion_types_ :
  extend keyframes_ values_ motion_types_ self = (Ok (), self') →
  ∀ (later : list operation) keyframe value motion_type,
    let now := foldl perform self' later in
    now = self' ∧
    append keyframe value motion_type now = (Raise AttributeError, now).
Proof.
  intros (ks0 & vs0 & ms0 & funcs & zipped & _ & _ & _ & _ & _ & ->)%extend_Ok
    later k v name.
  cbv zeta. erewrite perform_tuple by done.
  split; [done|]. by erewrite append_tuple.
Qed.

Lemma append_after_extend_raises_witness :
  let self' := (extend [0; 10] [VFloat 0; VFloat 100] None (__init__ None)).2 in
  let now := foldl (perform (H := linear_only)) self'
               [Call 5; Append 3 (VFloat 30) "linear"; Extend [4] [VFloat 40] None] in
  now = self' ∧ append 7 (VFloat 70) "linear" now = (Raise AttributeError, now).
Proof.
  exact (append_after_extend_raises (H := linear_only) (__init__ None) _
           [0; 10] [VFloat 0; VFloat 100] None eq_refl
           [Call 5; Append 3 (VFloat 30) "linear"; Extend [4] [VFloat 40] None]
           7 (VFloat 70) "linear"%string).
Defined.

(** *** Building one curve in two ways *)

(** A keyframe as a client passes it: time, value and easing name. *)
Definition triple : Type := float * value * string.

Definition built_by_extend (dv : option value) (triples : list triple) : Motion :=
  (extend (map (λ t, t.1.1) triples) (map (λ t, t.1.2) triples)
     (Some (map (λ t, t.2) triples)) (__init__ dv)).2.

Definition built_by_append (dv : option value) (triples : list triple) : Motion :=
  foldl (λ self t, (append t.1.1 t.1.2 t.2 self).2) (__init__ dv) triples.

Definition distinct_times (triples : list triple) : Prop :=
  ForallOrdPairs (λ a b : triple, (a.1.1 =? b.1.1) = false) triples.

Definition known_easing (t : triple) : Prop :=
  is_Some (motion_types_to_func !! t.2).

(** The entry a triple is stored as. *)
Definition entry_of (t : triple) : entry :=
  (t.1.1, _cast t.1.2, default linear (motion_types_to_func !! t.2)).

Definition of_entries (seq : ∀ A, list A → pyseq A) (dv : option value)
    (es : list entry) : Motion :=
  {| keyframes := seq _ (map time_of es);
     values := seq _ (map (λ e, e.1.2) es);
     motion_types := seq _ (map (λ e, e.2) es);
     default_value := dv |}.

Lemma func_of_name_known (t : triple) :
  known_easing t → func_of_name t.2 = Ok (entry_of t).2.
Proof. unfold func_of_name, entry_of, known_easing. simpl. by intros [f ->]. Qed.

Lemma map_result_known (triples : list triple) :
  Forall known_easing triples →
  map_result func_of_name (map (λ t, t.2) triples)
    = Ok (map (λ t, (entry_of t).2) triples).
Proof.
  induction 1 as [|t triples Ht _ IH]; [done|].
  cbn [map map_result]. rewrite (func_of_name_known t Ht), IH. done.
Qed.

Lemma zip3_entries (triples : list triple) :
  zip3 (map (λ t, t.1.1) triples) (map _cast (map (λ t, t.1.2) triples))
       (map (λ t, (entry_of t).2) triples) = map entry_of triples.
Proof.
  induction triples as [|[[k v] n] l IH]; [done|].
  cbn [map zip3]. f_equal. apply IH.
Qed.

Lemma list_insert_at_map {A B} (f : A → B) (i : nat) (x : A) (l : list A) :
  list_insert_at i (f x) (map f l) = map f (list_insert_at i x l).
Proof.
  unfold list_insert_at.
  change (map f) with (fmap (M := list) f).
  by rewrite fmap_app, fmap_cons, fmap_take, fmap_drop.
Qed.

Lemma list_insert_at_perm {A} (i : nat) (x : A) (l : list A) :
  list_insert_at i x l ≡ₚ x :: l.
Proof.
  unfold list_insert_at. rewrite <-Permutation_middle.
  by rewrite take_drop.
Qed.

(** Appending to a list-backed curve, seen on the entries. *)
Lemma append_of_entries dv (es : list entry) (t : triple) :
  known_easing t →
  append t.1.1 t.1.2 t.2 (of_entries (@PyList) dv es) =
    (Ok (), of_entries (@PyList) dv
              (list_insert_at (bisect (map time_of es) t.1.1) (entry_of t) es)).
Proof.
  intros Ht. unfold of_entries. rewrite append_lists. cbv zeta.
  rewrite (func_of_name_known t Ht).
  by rewrite <-!list_insert_at_map.
Qed.

Lemma built_by_append_entries dv (es : list entry) (order : list triple) :
  Forall known_easing order →
  Forall (λ t : triple, is_number t.1.1 = true) order →
  ascending (map time_of es) →
  ∃ es',
    foldl (λ self t, (append t.1.1 t.1.2 t.2 self).2)
      (of_entries (@PyList) dv es) order = of_entries (@PyList) dv es' ∧
    es' ≡ₚ es ++ map entry_of order ∧
    ascending (map time_of es').
Proof.
  intros Hknown. revert es.
  induction Hknown as [|t order Ht _ IH]; intros es Hnum Hasc; simpl.
  { exists es. by rewrite app_nil_r. }
  apply Forall_cons in Hnum as [Hk Hnum].
  rewrite (append_of_entries dv es t Ht). simpl.
  destruct (IH (list_insert_at (bisect (map time_of es) t.1.1) (entry_of t) es))
    as (es' & Hfold & Hperm & Hasc'); [done| |].
  { rewrite <-(list_insert_at_map time_of).
    by apply list_insert_at_ascending. }
  exists es'. split_and!; [done| |done].
  rewrite Hperm, list_insert_at_perm. by rewrite <-Permutation_middle.
Qed.

Lemma sorted_entries_ascending (l r : list entry) :
  Forall (λ e, is_number (time_of e) = true) l →
  sorted entry_lt l = Ok r → ascending (map time_of r).
Proof.
  intros Hnum Hr. split.
  - apply Forall_fmap. by rewrite (sorted_perm _ _ _ Hr).
  - apply (Sorted_fmap (λ x y, (x <=? y) = true) time_of).
    eapply (sorted_Sorted entry_lt _ time_le); [| |exact Hnum|exact Hr].
    + intros x y _ _. apply entry_lt_true.
    + intros x y. apply entry_lt_false.
Qed.

Lemma ascending_entries_StronglySorted (es : list entry) :
  ascending (map time_of es) → StronglySorted time_le es.
Proof.
  intros Hs%ascending_StronglySorted.
  induction es as [|e es IH]; [constructor|].
  apply StronglySorted_inv in Hs as [Hs Hall].
  constructor; [by apply IH|]. by apply Forall_fmap in Hall.
Qed.

Lemma distinct_entries_comparable (triples : list triple) :
  distinct_times triples →
  ForallOrdPairs (λ x y, ∃ b, entry_lt y x = Ok b) (map entry_of triples).
Proof.
  induction 1 as [|a l Ha _ IH]; simpl; [constructor|].
  constructor; [|done].
  apply Forall_fmap. eapply Forall_impl; [exact Ha|].
  intros b Hab. unfold entry_lt, entry_of. simpl.
  rewrite eqb_sym, Hab. simpl. eauto.
Qed.

Lemma distinct_entries (triples : list triple) :
  distinct_times triples →
  ForallOrdPairs (λ a b : entry, (time_of a =? time_of b) = false)
    (map entry_of triples).
Proof.
  induction 1 as [|a l Ha _ IH]; simpl; [constructor|].
  constructor; [|done].
  apply Forall_fmap. eapply Forall_impl; [exact Ha|]. by intros b Hab.
Qed.

Lemma distinct_entries_equal (triples : list triple) (x y : entry) :
  distinct_times triples →
  x ∈ map entry_of triples → y ∈ map entry_of triples →
  time_le x y → time_le y x → x = y.
Proof.
  intros Hd Hx Hy Hxy Hyx.
  pose proof (leb_antisym _ _ Hxy Hyx) as Heq.
  pose proof (distinct_entries triples Hd) as Hd'.
  apply list_elem_of_In in Hx, Hy.
  destruct (ForallOrdPairs_In Hd' x y Hx Hy) as [?|[E|E]]; [done|congruence|].
  rewrite eqb_sym in E. congruence.
Qed.

Lemma built_by_extend_entries dv (triples : list triple) :
  Forall known_easing triples →
  Forall (λ t : triple, is_number t.1.1 = true) triples →
  distinct_times triples →
  triples ≠ [] →
  ∃ es,
    built_by_extend dv triples = of_entries (@PyTuple) dv es ∧
    es ≡ₚ map entry_of triples ∧
    ascending (map time_of es).
Proof.
  intros Hknown Hnum Hd Hne.
  destruct (sorted_defined entry_lt (map entry_of triples)) as [es Hes];
    [by apply distinct_entries_comparable|].
  pose proof (sorted_perm _ _ _ Hes) as Hperm.
  exists es. split_and!; [|done|].
  - unfold built_by_extend, __init__. rewrite extend_lists. cbv zeta.
    rewrite !length_map. cbn [names_of].
    rewrite !length_map, !bool_decide_true by done. cbn [negb].
    rewrite (map_result_known triples Hknown). cbn [mbind result_bind app].
    rewrite zip3_entries, Hes.
    destruct es as [|e es].
    { apply Permutation_nil_l in Hperm. by destruct triples. }
    done.
  - eapply sorted_entries_ascending; [|exact Hes].
    apply Forall_fmap. eapply Forall_impl; [exact Hnum|]. done.
Qed.

(** [__call__] reads the sequences through [len] and indexing only, which a
    list and a tuple with the same items answer alike. *)
Lemma getitem_items {A} (s s' : pyseq A) (i : Z) :
  items s = items s' → getitem s i = getitem s' i.
Proof. intros E. unfold getitem, len. by rewrite E. Qed.

Lemma call_same_items `{Libm} (a b : Motion) (time : float) :
  items (keyframes a) = items (keyframes b) →
  items (values a) = items (values b) →
  items (motion_types a) = items (motion_types b) →
  default_value a = default_value b →
  (__call__ time a).1 = (__call__ time b).1.
Proof.
  intros Ek Ev Em Ed. unfold __call__. run_method.
  rewrite !len_length, Ek, Ed.
  rewrite !(getitem_items (keyframes a) (keyframes b)) by done.
  rewrite !(getitem_items (values a) (values b)) by done.
  rewrite !(getitem_items (motion_types a) (motion_types b)) by done.
  repeat (match goal with
          | |- context [match ?x with _ => _ end] => destruct x
          end; simpl; try done).
Qed.

(** C6. For keyframes with pairwise distinct times that are numbers, one
    [extend] over all of them and one [append] for each, in any order, give
    curves on which [__call__] returns the same at every time. *)
Theorem extend_agrees_with_appends `{Libm} (dv : option value)
    (triples order : list triple) (q : float) :
  order ≡ₚ triples →
  distinct_times triples →
  Forall (λ t : triple, is_number t.1.1 = true) triples →
  Forall known_easing triples →
  (__call__ q (built_by_extend dv triples)).1 =
  (__call__ q (built_by_append dv order)).1.
Proof.
  intros Hperm Hd Hnum Hknown.
  destruct (decide (triples = [])) as [->|Hne].
  { apply Permutation_nil_r in Hperm as ->. done. }
  destruct (built_by_extend_entries dv triples) as (es1 & -> & Hp1 & Ha1);
    [done..|].
  destruct (built_by_append_entries dv [] order) as (es2 & Hfold & Hp2 & Ha2).
  { by rewrite Hperm. }
  { by rewrite Hperm. }
  { split; constructor. }
  unfold built_by_append.
  change (__init__ dv) with (of_entries (@PyList) dv []). rewrite Hfold.
  simpl in Hp2. rewrite Hperm in Hp2.
  assert (es1 = es2) as <-.
  { apply (StronglySorted_unique_strong time_le);
      [|by apply ascending_entries_StronglySorted..|by rewrite Hp1, Hp2].
    intros x y Hx Hy. apply (distinct_entries_equal triples); [done| |].
    - by rewrite <-Hp1.
    - by rewrite <-Hp2. }
  by apply call_same_items.
Qed.

(** Three keyframes, given to [extend] in one order and appended in another. *)
Definition three_triples : list triple :=
  [ (10, VFloat 100, "linear"); (0, VFloat 0, "linear");
    (4, VFloat 80, "linear") ]%string.

Definition three_triples_reordered : list triple :=
  [ (4, VFloat 80, "linear"); (10, VFloat 100, "linear");
    (0, VFloat 0, "linear") ]%string.

Lemma extend_agrees_with_appends_witness :
  (__call__ (H := linear_only) 2 (built_by_extend None three_triples)).1
    = Ok (VFloat 40) ∧
  (__call__ (H := linear_only) 2 (built_by_append None three_triples_reordered)).1
    = Ok (VFloat 40).
Proof.
  assert (three_triples_reordered ≡ₚ three_triples) as Hperm.
  { unfold three_triples_reordered, three_triples.
    etrans; [apply Permutation_swap|]. apply Permutation_skip, Permutation_swap. }
  assert (distinct_times three_triples) as Hd by (repeat constructor).
  assert (Forall (λ t : triple, is_number t.1.1 = true) three_triples) as Hnum
    by (repeat constructor).
  assert (Forall known_easing three_triples) as Hknown
    by (repeat constructor; by eexists).
  pose proof (extend_agrees_with_appends (H := linear_only) None
                three_triples three_triples_reordered 2 Hperm Hd Hnum Hknown) as E.
  split; [reflexivity|]. rewrite <-E. reflexivity.
Defined.

(** C6 as stated, for every time, fails on NaN, which is distinct from every
    time under [==]: [extend] leaves NaN before 5, where 7 is clamped to the
    last value, and appending 5 and then NaN leaves NaN last, where [bisect]
    runs past the end. *)
Lemma extend_differs_from_appends_nan :
  ¬ (∀ (H : Libm) (dv : option value) (triples order : list triple) (q : float),
       order ≡ₚ triples →
       distinct_times triples →
       Forall known_easing triples →
       (__call__ q (built_by_extend dv triples)).1 =
       (__call__ q (built_by_append dv order)).1).
Proof.
  intros Hclaim.
  specialize (Hclaim linear_only None
                [(nan, VFloat 1, "linear"); (5, VFloat 2, "linear")]%string
                [(5, VFloat 2, "linear"); (nan, VFloat 1, "linear")]%string 7).
  assert ((__call__ (H := linear_only) 7
             (built_by_extend None
                [(nan, VFloat 1, "linear"); (5, VFloat 2, "linear")]%string)).1
          = Ok (VFloat 2)) as Hextend by (by vm_compute).
  assert ((__call__ (H := linear_only) 7
             (built_by_append None
                [(5, VFloat 2, "linear"); (nan, VFloat 1, "linear")]%string)).1
          = Raise IndexError) as Happend by (by vm_compute).
  rewrite Hextend, Happend in Hclaim.
  discriminate Hclaim.
  - apply Permutation_swap.
  - repeat constructor.
  - repeat constructor; by eexists.
Qed.

End motion_mutation.

(** ** Properties of the timeline lookup *)

Module timeline_facts.
Import PyFloat float_facts order timeline.

(** Equal lengths, and a memo that holds what the lookup answers. *)
Definition well_formed (self : TimelineIndex) : Prop :=
  length (start_times self) = length (end_times self) ∧
  ∀ t idx, cache self = Some (t, idx) →
    idx = lookup (start_times self) (end_times self) t.

(** Every interval ends after it starts, and not after the next one
    starts. *)
Definition proper (starts ends : list float) : Prop :=
  ∀ i s e, starts !! i = Some s → ends !! i = Some e → (s <? e) = true.

Definition non_overlapping (starts ends : list float) : Prop :=
  ∀ i e s, ends !! i = Some e → starts !! S i = Some s → (e <=? s) = true.

Definition contains (starts ends : list float) (i : nat) (time : float) : Prop :=
  ∃ s e, starts !! i = Some s ∧ ends !! i = Some e ∧
         (s <=? time) = true ∧ (time <? e) = true.

Lemma make_well_formed starts ends self :
  make starts ends = Ok self →
  well_formed self ∧ start_times self = starts ∧ end_times self = ends.
Proof.
  unfold make. case_bool_decide; [|done]. intros [= <-]. by split.
Qed.

(** The memo does not change the answer. *)
Lemma resolve_lookup self time :
  well_formed self →
  (resolve time self).1 = lookup (start_times self) (end_times self) time ∧
  well_formed (resolve time self).2 ∧
  start_times (resolve time self).2 = start_times self ∧
  end_times (resolve time self).2 = end_times self.
Proof.
  intros Hwf. pose proof Hwf as [Hlen Hcache]. unfold resolve.
  destruct (cache self) as [[t idx]|] eqn:Hc.
  - destruct (PrimFloat.Leibniz.eqb t time) eqn:E.
    + apply FloatAxioms.Leibniz.eqb_spec in E as ->. simpl.
      split; [by apply Hcache|]. by split.
    + simpl. split; [done|]. split; [|done].
      split; [done|]. simpl. by intros ?? [= <- <-].
  - simpl. split; [done|]. split; [|done].
    split; [done|]. simpl. by intros ?? [= <- <-].
Qed.

(** A non-negative answer is an interval that contains the time. *)
Lemma lookup_contains starts ends time (j : nat) :
  Forall (λ s, is_number s = true) starts →
  lookup starts ends time = Z.of_nat j → contains starts ends j time.
Proof.
  intros Hnum. unfold lookup.
  destruct (bisect_spec starts time) as (Hr & Hlo & _).
  set (r := bisect starts time) in *.
  destruct (Z.ltb_spec (Z.of_nat r - 1) 0); [lia|].
  destruct (ends !! Z.to_nat (Z.of_nat r - 1)) as [e|] eqn:He; [|lia].
  destruct (time <? e) eqn:Hte; [|lia].
  intros Hj. assert (j = (r - 1)%nat) as -> by lia.
  replace (Z.to_nat (Z.of_nat r - 1)) with (r - 1)%nat in He by lia.
  destruct Hlo as [?|(s & Hs & Hts)]; [lia|].
  exists s, e. split_and!; try done.
  apply not_ltb_leb; [by apply ltb_number in Hte as [? ?]| |done].
  eapply Forall_lookup_1 in Hnum; [exact Hnum|exact Hs].
Qed.

Lemma lookup_range starts ends time :
  lookup starts ends time = (-1)%Z ∨
  ∃ j : nat, lookup starts ends time = Z.of_nat j.
Proof.
  unfold lookup. destruct (Z.ltb_spec (Z.of_nat (bisect starts time) - 1) 0);
    [by left|].
  destruct (ends !! _); [|by left]. destruct (time <? _); [|by left].
  right. exists (bisect starts time - 1)%nat. lia.
Qed.

(** On ascending, non-overlapping intervals the containing interval is the
    candidate of the binary search. *)
Lemma lookup_sorted starts ends time (j : nat) :
  ascending starts → non_overlapping starts ends →
  contains starts ends j time → lookup starts ends time = Z.of_nat j.
Proof.
  intros Hasc Hno (s & e & Hs & He & Hst & Hte).
  destruct (bisect_ascending starts time Hasc) as [Hbefore Hafter];
    [by apply leb_number in Hst as [? ?]|].
  unfold lookup. set (r := bisect starts time) in *.
  assert (j < r)%nat as Hjr.
  { destruct (decide (j < r)%nat); [done|].
    rewrite Forall_lookup in Hafter.
    specialize (Hafter (j - r)%nat s). rewrite lookup_drop in Hafter.
    replace (r + (j - r))%nat with j in Hafter by lia.
    apply leb_not_ltb in Hst. rewrite Hafter in Hst; done. }
  destruct (Z.ltb_spec (Z.of_nat r - 1) 0); [lia|].
  replace (Z.to_nat (Z.of_nat r - 1)) with (r - 1)%nat by lia.
  destruct (decide (j = r - 1)%nat) as [E|Hne].
  { rewrite <-E, He, Hte. lia. }
  exfalso.
  destruct (lookup_lt_is_Some_2 starts (S j)) as [s' Hs'].
  { pose proof (bisect_spec starts time) as (? & _). fold r in H0. lia. }
  destruct (lookup_lt_is_Some_2 starts (r - 1)) as [s'' Hs''].
  { pose proof (bisect_spec starts time) as (? & _). fold r in H0. lia. }
  assert ((s'' <=? time) = true) as H1.
  { rewrite Forall_lookup in Hbefore. apply (Hbefore (r - 1)%nat).
    apply lookup_take_Some. split; [done|lia]. }
  assert ((s' <=? s'') = true) as H2.
  { eapply (ascending_lookup starts (S j) (r - 1)); [done|lia|done..]. }
  pose proof (Hno j e s' He Hs') as H3.
  assert ((e <=? time) = true) as H4
    by (eapply leb_trans; [exact H3|]; by eapply leb_trans).
  apply leb_not_ltb in H4. congruence.
Qed.

(** The contract function returns the first containing interval. *)
Lemma first_containing_from_spec (i : Z) starts ends time :
  (first_containing_from i starts ends time = (-1)%Z ∧
   ∀ j, ¬ contains starts ends j time) ∨
  (∃ j : nat, first_containing_from i starts ends time = (i + Z.of_nat j)%Z ∧
              contains starts ends j time ∧
              ∀ k, (k < j)%nat → ¬ contains starts ends k time) ∨
  (i < 0)%Z.
Proof.
  destruct (Z.ltb_spec i 0) as [|Hi]; [auto|].
  revert i Hi ends. induction starts as [|s starts IH]; intros i Hi ends; simpl.
  { left. split; [done|]. by intros j (? & ? & ? & _). }
  destruct ends as [|e ends].
  { left. split; [done|]. by intros j (? & ? & _ & ? & _). }
  destruct ((s <=? time) && (time <? e)) eqn:E.
  - right. left. exists 0%nat. apply andb_prop in E as [? ?].
    split_and!; [lia| |lia]. by exists s, e.
  - destruct (IH (i + 1)%Z ltac:(lia) ends) as [[H0 Hnone]|[(j & Hj & Hc & Hmin)|?]];
      [| |lia].
    + left. split; [done|]. intros [|j] (s' & e' & Hs' & He' & H1 & H2); simpl in *.
      * injection Hs' as <-. injection He' as <-. by rewrite H1, H2 in E.
      * apply (Hnone j). by exists s', e'.
    + right. left. exists (S j). split_and!; [lia| |].
      * destruct Hc as (s' & e' & ?). by exists s', e'.
      * intros [|k] Hk (s' & e' & Hs' & He' & H1 & H2); simpl in *.
        -- injection Hs' as <-. injection He' as <-. by rewrite H1, H2 in E.
        -- apply (Hmin k); [lia|]. by exists s', e'.
Qed.

(** Between the end of one interval and the start of the next, no interval
    contains the time. *)
Lemma gap_not_contained starts ends time (i : nat) e s :
  length starts = length ends →
  ascending starts → proper starts ends → non_overlapping starts ends →
  ends !! i = Some e → starts !! S i = Some s →
  (e <=? time) = true → (time <? s) = true →
  ∀ j, ¬ contains starts ends j time.
Proof.
  intros Hlen Hasc Hprop Hno He Hs Het Hts j (sj & ej & Hsj & Hej & H1 & H2).
  destruct (decide (j ≤ i)%nat) as [Hji|Hji].
  - assert ((ej <=? time) = true) as H3; [|apply leb_not_ltb in H3; congruence].
    destruct (decide (j = i)) as [->|Hne]; [congruence|].
    destruct (lookup_lt_is_Some_2 starts i) as [si Hsi].
    { apply lookup_lt_Some in He. lia. }
    destruct (lookup_lt_is_Some_2 starts (S j)) as [s' Hs'].
    { apply lookup_lt_Some in Hsi. lia. }
    eapply leb_trans; [exact (Hno j ej s' Hej Hs')|].
    eapply leb_trans; [eapply (ascending_lookup starts (S j) i); [done|lia|done..]|].
    eapply leb_trans; [|exact Het]. apply ltb_leb. by eapply Hprop.
  - assert ((s <=? time) = true) as H3; [|apply leb_not_ltb in H3; congruence].
    eapply leb_trans; [|exact H1].
    eapply (ascending_lookup starts (S i) j); [done|lia|done..].
Qed.

(** C2, on sorted intervals.  When the start times ascend and the intervals
    are proper and do not overlap, [resolve] returns the index of the one
    interval that contains the time, which is then the first one, and [-1]
    when there is none, as between the end of an interval and the start of
    the next. *)
Theorem resolve_sorted_intervals (self : TimelineIndex) (time : float) :
  well_formed self →
  ascending (start_times self) →
  proper (start_times self) (end_times self) →
  non_overlapping (start_times self) (end_times self) →
  let idx := (resolve time self).1 in
  idx = first_containing (start_times self) (end_times self) time ∧
  (∀ j, contains (start_times self) (end_times self) j time → idx = Z.of_nat j) ∧
  ((∀ j, ¬ contains (start_times self) (end_times self) j time) → idx = (-1)%Z) ∧
  (∀ i e s, end_times self !! i = Some e → start_times self !! S i = Some s →
            (e <=? time) = true → (time <? s) = true → idx = (-1)%Z).
Proof.
  intros Hwf Hasc Hprop Hno. cbv zeta.
  destruct (resolve_lookup self time Hwf) as (-> & _).
  destruct Hwf as [Hlen _].
  set (starts := start_times self) in *. set (ends := end_times self) in *.
  assert (∀ j, contains starts ends j time →
               lookup starts ends time = Z.of_nat j) as Hin
    by (intros j; by apply lookup_sorted).
  assert ((∀ j, ¬ contains starts ends j time) →
          lookup starts ends time = (-1)%Z) as Hout.
  { intros Hnone. destruct (lookup_range starts ends time) as [?|[j Hj]]; [done|].
    destruct (Hnone j). apply lookup_contains; [by destruct Hasc|done]. }
  split_and!; [|done|done|].
  - unfold first_containing.
    destruct (first_containing_from_spec 0 starts ends time)
      as [[-> Hnone]|[(j & -> & Hc & _)|?]]; [by apply Hout| |lia].
    rewrite Z.add_0_l. by apply Hin.
  - intros i e s He Hs Het Hts. apply Hout.
    by eapply gap_not_contained.
Qed.

(** Two intervals with a gap: [0, 5) and [10, 20). *)
Definition two_intervals : TimelineIndex :=
  {| start_times := [0; 10]; end_times := [5; 20]; cache := None |}.

Lemma two_intervals_sorted :
  well_formed two_intervals ∧ ascending (start_times two_intervals) ∧
  proper (start_times two_intervals) (end_times two_intervals) ∧
  non_overlapping (start_times two_intervals) (end_times two_intervals).
Proof.
  split_and!.
  - by split.
  - split; repeat constructor.
  - intros [|[|i]] s e; simpl; intros [= <-] [= <-]; reflexivity.
  - intros [|[|i]] e s; simpl; try done. intros [= <-] [= <-]. reflexivity.
Qed.

Lemma resolve_sorted_intervals_witness :
  (resolve 12 two_intervals).1 = 1%Z ∧ (resolve 7 two_intervals).1 = (-1)%Z.
Proof.
  destruct two_intervals_sorted as (Hwf & Hasc & Hprop & Hno).
  split.
  - destruct (resolve_sorted_intervals two_intervals 12 Hwf Hasc Hprop Hno)
      as (_ & Hin & _).
    apply (Hin 1%nat). exists 10, 20. by repeat split.
  - destruct (resolve_sorted_intervals two_intervals 7 Hwf Hasc Hprop Hno)
      as (_ & _ & _ & Hgap).
    exact (Hgap 0%nat 5 10 eq_refl eq_refl eq_refl eq_refl).
Defined.

(** C2 as stated fails on overlapping intervals: with [0, 10) and [1, 2) the
    binary search proposes the second interval for the time 5, which does not
    contain it, and the first interval, which does, is not looked at. *)
Lemma resolve_not_first_containing :
  ¬ (∀ starts ends time self,
       make starts ends = Ok self →
       (resolve time self).1 = first_containing starts ends time).
Proof.
  intros Hclaim.
  specialize (Hclaim [0; 1] [10; 2] 5 _ eq_refl).
  vm_compute in Hclaim. discriminate.
Qed.

End timeline_facts.

(** ** Determinism of [Character.get_eye_state] *)

Module commentary_facts.
Import timeline commentary.

(** What [get_eye_state] reads of a character: its name, its emotions over
    time, the blink settings, and for each emotion whether it has eye images
    and how many.  The images themselves, loaded or not, and the memo of the
    timeline are not part of it. *)
Record same_configuration (a b : Character) : Prop := {
  same_name : character_name a = character_name b;
  same_timeline : character_timeline a = character_timeline b;
  same_blink_per_minute : blink_per_minute a = blink_per_minute b;
  same_blink_duration : blink_duration a = blink_duration b;
  same_eye_counts :
    ∀ emotion, length <$> eye_imgs a !! emotion = length <$> eye_imgs b !! emotion;
}.

Global Instance same_configuration_refl : Reflexive same_configuration.
Proof. by intros a. Qed.

Global Instance same_configuration_trans : Transitive same_configuration.
Proof.
  intros a b c [] []. split; try congruence; intros emotion; etrans; eauto.
Qed.

Ltac run_method :=
  unfold mbind, method_bind, mret, method_ret, get, lift, modify;
  cbn beta iota.

(** [get_eye_state] assigns nothing. *)
Lemma get_eye_state_unmodified `{Platform} (w : world) (time : float) (idx : Z) :
  (get_eye_state time idx w).2 = w.
Proof.
  unfold get_eye_state. run_method.
  repeat (match goal with
          | |- context [match ?x with _ => _ end] => destruct x
          end; simpl; try done).
Qed.

(** Its result is a function of the configuration, the time and the index. *)
Lemma get_eye_state_configuration `{Platform} (w1 w2 : world) (time : float) (idx : Z) :
  same_configuration (self_ w1) (self_ w2) →
  (get_eye_state time idx w1).1 = (get_eye_state time idx w2).1.
Proof.
  intros [Hname Htl Hbpm Hbd Heyes]. unfold get_eye_state. run_method.
  rewrite Htl, Hbpm, Hbd, Hname.
  destruct (getitem _ idx) as [emotion|]; simpl; [|done].
  specialize (Heyes emotion).
  destruct (eye_imgs (self_ w1) !! emotion) as [eyes1|],
           (eye_imgs (self_ w2) !! emotion) as [eyes2|]; simpl in Heyes;
    try done.
  injection Heyes as ->.
  repeat (match goal with
          | |- context [match ?x with _ => _ end] => destruct x
          end; simpl; try done).
Qed.

Lemma setitem_length {A} (l l' : list A) (i : Z) (x : A) :
  setitem l i x = Ok l' → length l' = length l.
Proof.
  unfold setitem. destruct (_ || _); [done|]. intros [= <-].
  apply length_insert.
Qed.

Lemma set_eye_imgs_configuration (c : Character) emotion eyes eyes' :
  eye_imgs c !! emotion = Some eyes → length eyes' = length eyes →
  same_configuration c (set_eye_imgs (<[emotion := eyes']> (eye_imgs c)) c).
Proof.
  intros He Hlen. split; try done. intros emotion'. simpl.
  destruct (decide (emotion = emotion')) as [<-|Hne].
  - rewrite lookup_insert_eq, He. simpl. by rewrite Hlen.
  - by rewrite lookup_insert_ne.
Qed.

(** [get_state] only writes the memo of the timeline. *)
Lemma get_state_configuration (w : world) (time : float) :
  same_configuration (self_ w) (self_ (get_state time w).2) ∧
  ∃ idx, (get_state time w).1 = Ok idx.
Proof.
  unfold get_state. run_method.
  destruct (resolve time (timeline (self_ w))) as [idx t]. simpl.
  split; [by split|eauto].
Qed.

(** [__call__] replaces paths by the images loaded from them; the
    configuration stays. *)
Lemma call_configuration `{Platform} (w : world) (time : float) :
  same_configuration (self_ w) (self_ (__call__ time w).2).
Proof.
  unfold __call__. unfold mbind at 1, method_bind at 1.
  destruct (get_state_configuration w time) as [Hcfg [idx Hidx]].
  destruct (get_state time w) as [r w1]. simpl in Hcfg, Hidx. subst r.
  etrans; [exact Hcfg|]. clear Hcfg. run_method.
  destruct (idx <? 0)%Z; [done|].
  destruct (getitem _ idx) as [emotion|]; simpl; [|done].
  destruct (dict_getitem (character_imgs (self_ w1)) emotion) as [[p|a]|];
    simpl; [| |done].
  - pose proof (get_eye_state_unmodified
      {| self_ := set_character_imgs
                    (<[emotion:=Array (open_rgba p)]> (character_imgs (self_ w1)))
                    (self_ w1);
         np_random := np_random w1 |} time idx) as Hun.
    destruct (eye_imgs (self_ w1) !! emotion) as [eyes|] eqn:He; simpl;
      [|by split].
    destruct (get_eye_state time idx _) as [[eye_number|] w2]; simpl in *;
      subst w2; simpl; [|by split].
    unfold dict_getitem. simpl. rewrite He. simpl.
    destruct (getitem (PyList eyes) eye_number) as [[q|b]|]; simpl;
      [| |by split]; [|by split].
    destruct (setitem eyes eye_number _) as [eyes'|] eqn:Hset; simpl;
      [|by split].
    etrans;
      [|apply (set_eye_imgs_configuration
                 (set_character_imgs
                    (<[emotion:=Array (open_rgba p)]> (character_imgs (self_ w1)))
                    (self_ w1)) emotion eyes eyes');
        [done|by eapply setitem_length]].
    by split.
  - pose proof (get_eye_state_unmodified w1 time idx) as Hun.
    destruct (eye_imgs (self_ w1) !! emotion) as [eyes|] eqn:He; simpl; [|done].
    destruct (get_eye_state time idx w1) as [[eye_number|] w2]; simpl in *;
      subst w2; simpl; [|done].
    unfold dict_getitem. rewrite He. simpl.
    destruct (getitem (PyList eyes) eye_number) as [[q|b]|]; simpl; [|done..].
    destruct (setitem eyes eye_number _) as [eyes'|] eqn:Hset; simpl; [|done].
    destruct w1 as [c1 rng1]. simpl in *.
    apply (set_eye_imgs_configuration c1 emotion eyes eyes'); [done|].
    by eapply setitem_length.
Qed.

Lemma get_key_configuration `{Platform} (w : world) (time : float) :
  same_configuration (self_ w) (self_ (get_key time w).2).
Proof.
  unfold get_key. unfold mbind at 1, method_bind at 1.
  destruct (get_state_configuration w time) as [Hcfg [idx Hidx]].
  destruct (get_state time w) as [r w1]. simpl in Hcfg, Hidx. subst r.
  etrans; [exact Hcfg|]. clear Hcfg. run_method.
  destruct (idx <? 0)%Z; [done|].
  destruct (getitem _ idx) as [emotion|]; simpl; [|done].
  pose proof (get_eye_state_unmodified w1 time idx) as Hun.
  destruct (get_eye_state time idx w1) as [[eye|] w2]; simpl in *; by subst w2.
Qed.

(** The calls a client can make on a character. *)
Inductive call :=
  | CallRender (time : float)
  | CallGetKey (time : float)
  | CallGetEyeState (time : float) (idx : Z).

(** The world after the call, whether it returned or raised. *)
Definition perform `{Platform} (w : world) (c : call) : world :=
  match c with
  | CallRender time => (__call__ time w).2
  | CallGetKey time => (get_key time w).2
  | CallGetEyeState time idx => (get_eye_state time idx w).2
  end.

Lemma perform_configuration `{Platform} (w : world) (history : list call) :
  same_configuration (self_ w) (self_ (foldl perform w history)).
Proof.
  revert w. induction history as [|c history IH]; intros w; simpl; [done|].
  etrans; [|apply IH].
  destruct c as [time|time|time idx]; simpl.
  - apply call_configuration.
  - apply get_key_configuration.
  - by rewrite get_eye_state_unmodified.
Qed.

(** C9. The frame [get_eye_state] returns for a time and an index depends on
    the character's configuration only: it is the same after any history of
    calls on the object and for any state of the global random generator, and
    the call itself changes neither. *)
Theorem get_eye_state_deterministic `{Platform} (w : world) (history : list call)
    (rng : Z) (time : float) (idx : Z) :
  let later := {| self_ := self_ (foldl perform w history); np_random := rng |} in
  (get_eye_state time idx later).1 = (get_eye_state time idx w).1 ∧
  (get_eye_state time idx later).2 = later ∧
  (get_eye_state time idx w).2 = w.
Proof.
  cbv zeta. split_and!.
  - symmetry. apply get_eye_state_configuration. simpl.
    apply perform_configuration.
  - apply get_eye_state_unmodified.
  - apply get_eye_state_unmodified.
Qed.

End commentary_facts.

(** ** Further properties of [Motion.extend] *)

Module motion_extend_more.
Import PyFloat float_facts order motion motion_spec motion_call motion_mutation.

(** X1. [extend] is all or nothing: whenever it raises, whatever the reason,
    the curve is what it was before the call. *)
Theorem extend_raise_unmodified (self self' : Motion) keyframes_ values_
    motion_types_ (e : exn) :
  extend keyframes_ values_ motion_types_ self = (Raise e, self') →
  self' = self.
Proof.
  destruct self as [[ks0|ks0] vals mts dv].
  2:{ destruct (extend_tuple
        {| keyframes := PyTuple ks0; values := vals; motion_types := mts;
           default_value := dv |} keyframes_ values_ motion_types_ ks0 eq_refl)
        as [e' ->]. congruence. }
  unfold extend. run_method. cbn.
  destruct (bool_decide (length keyframes_ = length values_)); simpl; [|congruence].
  destruct motion_types_ as [names|]; simpl.
  - destruct (bool_decide (length keyframes_ = length names)); simpl; [|congruence].
    destruct vals as [vs0|vs0]; simpl; [|congruence].
    destruct (map_result func_of_name names) as [funcs|]; simpl; [|congruence].
    destruct mts as [ms0|ms0]; simpl; [|congruence].
    destruct (sorted entry_lt _) as [zipped|]; simpl; [|congruence].
    destruct (unzip3 zipped) as [[[??]?]|]; simpl; congruence.
  - destruct vals as [vs0|vs0]; simpl; [|congruence].
    destruct (map_result func_of_name _) as [funcs|]; simpl; [|congruence].
    destruct mts as [ms0|ms0]; simpl; [|congruence].
    destruct (sorted entry_lt _) as [zipped|]; simpl; [|congruence].
    destruct (unzip3 zipped) as [[[??]?]|]; simpl; congruence.
Qed.

Lemma extend_raise_unmodified_witness :
  (extend [1] [VFloat 5] (Some ["ease_in"%string])
     (append 1 (VFloat 5) "linear" (__init__ None)).2).2
  = (append 1 (VFloat 5) "linear" (__init__ None)).2.
Proof.
  exact (extend_raise_unmodified
           (append 1 (VFloat 5) "linear" (__init__ None)).2 _
           [1] [VFloat 5] (Some ["ease_in"%string]) TypeError eq_refl).
Defined.

(** X2. The two assertions come first: keyframes and values of different
    lengths, or easing names of another length than the keyframes, raise
    [AssertionError] on every curve and change nothing. *)
Theorem extend_length_mismatch (self : Motion) keyframes_ values_ motion_types_ :
  (length keyframes_ ≠ length values_ ∨
   ∃ names, motion_types_ = Some names ∧ length keyframes_ ≠ length names) →
  extend keyframes_ values_ motion_types_ self = (Raise AssertionError, self).
Proof.
  intros H. unfold extend. run_method. cbn.
  destruct (bool_decide_reflect (length keyframes_ = length values_)) as [E|];
    simpl; [|done].
  destruct H as [?|(names & -> & Hn)]; [done|]. simpl.
  by rewrite bool_decide_false.
Qed.

Lemma extend_length_mismatch_witness :
  extend [1; 2] [VFloat 5] None two_keyframes = (Raise AssertionError, two_keyframes) ∧
  extend [1] [VFloat 5] (Some []) two_keyframes = (Raise AssertionError, two_keyframes).
Proof.
  split.
  - apply extend_length_mismatch. left. simpl. lia.
  - apply extend_length_mismatch. right. exists []. split; [reflexivity|]. simpl. lia.
Defined.

(** X3. An easing name that is not registered makes [extend] raise [KeyError]
    with the first such name, before anything is assigned. *)
Theorem extend_unknown_easing (self : Motion) keyframes_ values_
    (known : list string) (bad : string) (rest : list string) ks0 vs0 :
  keyframes self = PyList ks0 → values self = PyList vs0 →
  length keyframes_ = length values_ →
  length keyframes_ = length (known ++ bad :: rest) →
  Forall (λ name, is_Some (motion_types_to_func !! name)) known →
  motion_types_to_func !! bad = None →
  extend keyframes_ values_ (Some (known ++ bad :: rest)) self
    = (Raise (KeyError bad), self).
Proof.
  intros Hk Hv Hlen Hnames Hknown Hbad.
  assert (map_result func_of_name (known ++ bad :: rest) = Raise (KeyError bad)) as Hmap.
  { clear Hnames. induction Hknown as [|name known [f Hf] _ IH];
      cbn [app map_result].
    - unfold func_of_name. by rewrite Hbad.
    - assert (func_of_name name = Ok f) as ->
        by (unfold func_of_name; by rewrite Hf).
      cbn [mbind result_bind]. by rewrite IH. }
  unfold extend. run_method. cbn.
  rewrite !bool_decide_true by done. simpl.
  rewrite Hk, Hv. simpl. by rewrite Hmap.
Qed.

Lemma extend_unknown_easing_witness :
  extend [7; 8] [VFloat 1; VFloat 2] (Some ["ease_in"; "bogus"]%string) two_keyframes
    = (Raise (KeyError "bogus"), two_keyframes).
Proof.
  refine (extend_unknown_easing two_keyframes [7; 8] [VFloat 1; VFloat 2]
            ["ease_in"%string] "bogus" [] _ _ eq_refl eq_refl eq_refl eq_refl _ eq_refl).
  repeat constructor. by eexists.
Defined.

(** X4. With nothing to merge (a curve without keyframes and empty arguments)
    [extend] does not return an empty curve: unpacking the empty transposition
    raises [ValueError]. *)
Theorem extend_nothing_raises (self : Motion) motion_types_ vs0 ms0 :
  keyframes self = PyList [] → values self = PyList vs0 →
  motion_types self = PyList ms0 →
  motion_types_ = None ∨ motion_types_ = Some [] →
  extend [] [] motion_types_ self
    = (Raise (ValueError "not enough values to unpack"), self).
Proof.
  intros Hk Hv Hm Hn. unfold extend. run_method. cbn.
  destruct Hn as [-> | ->]; simpl; by rewrite Hk, Hv, Hm.
Qed.

Lemma extend_nothing_raises_witness :
  extend [] [] None (__init__ (Some (VFloat 1)))
    = (Raise (ValueError "not enough values to unpack"), __init__ (Some (VFloat 1))).
Proof.
  exact (extend_nothing_raises (__init__ (Some (VFloat 1))) None [] []
           eq_refl eq_refl eq_refl (or_introl eq_refl)).
Defined.

(** X5. A curve can be extended once: after [extend] has returned, every
    further [extend] whose arguments pass the assertions raises [TypeError]
    (a tuple cannot be concatenated with a list) and changes nothing. *)
Theorem extend_twice_raises (self self' : Motion) ks1 vs1 names1 ks2 vs2 names2 :
  extend ks1 vs1 names1 self = (Ok (), self') →
  length ks2 = length vs2 →
  length ks2 = length (names_of (length ks2) names2) →
  extend ks2 vs2 names2 self' = (Raise TypeError, self').
Proof.
  intros (ks0 & vs0 & ms0 & funcs & zipped & _ & _ & _ & _ & _ & ->)%extend_Ok
    Hlen Hnames.
  unfold extend. run_method. cbn.
  rewrite bool_decide_true by done. simpl.
  destruct names2 as [names|]; simpl in *; [|done].
  by rewrite bool_decide_true.
Qed.

Lemma extend_twice_raises_witness :
  extend [5] [VFloat 50] None
    (extend [0; 10] [VFloat 0; VFloat 100] None (__init__ None)).2
  = (Raise TypeError, (extend [0; 10] [VFloat 0; VFloat 100] None (__init__ None)).2).
Proof.
  exact (extend_twice_raises (__init__ None) _ [0; 10] [VFloat 0; VFloat 100] None
           [5] [VFloat 50] None eq_refl eq_refl eq_refl).
Defined.

End motion_extend_more.

(** ** Further properties of [Motion.__call__] and [Motion.append] *)

Module motion_call_more.
Import PyFloat float_facts order motion motion_spec motion_call motion_mutation.

(** What [__call__] computes between two keyframes. *)
Lemma call_between `{Libm} (self : Motion) (time first_ last_ : float) :
  Motion_inv self →
  (2 ≤ length (items (keyframes self)))%nat →
  items (keyframes self) !! 0%nat = Some first_ →
  last (items (keyframes self)) = Some last_ →
  (first_ <=? time) = true →
  (time <? last_) = true →
  ∃ (kp ki : float) (m M : value) (f : easing),
    let i := bisect (items (keyframes self)) time in
    (1 ≤ i < length (items (keyframes self)))%nat ∧
    items (keyframes self) !! (i - 1)%nat = Some kp ∧
    items (keyframes self) !! i = Some ki ∧
    items (values self) !! (i - 1)%nat = Some m ∧
    items (values self) !! i = Some M ∧
    items (motion_types self) !! (i - 1)%nat = Some f ∧
    __call__ time self =
      (eased ← easing_call f ((time - kp) / (ki - kp)); interpolate m M eased, self).
Proof.
  intros [Hv Hm [Hnum Hsort]] Hn Hfirst Hlast Hft Htl.
  set (ks := items (keyframes self)) in *.
  destruct (bisect_spec ks time) as (Hi & Hlo & Hhi).
  cbv zeta. set (i := bisect ks time) in *.
  assert (i ≠ 0%nat) as Hi0.
  { intros E. rewrite E in Hhi. destruct Hhi as [?|(y & Hy & Hlt)]; [lia|].
    rewrite Hfirst in Hy. injection Hy as <-.
    apply leb_not_ltb in Hft. congruence. }
  assert (i ≠ length ks) as Hin.
  { intros E. rewrite E in Hlo. destruct Hlo as [?|(y & Hy & Hlt)]; [lia|].
    rewrite last_lookup in Hlast.
    replace (length ks - 1)%nat with (pred (length ks)) in Hy by lia.
    rewrite Hlast in Hy. injection Hy as <-. congruence. }
  destruct Hlo as [?|(kp & Hkp & Hkpt)]; [done|].
  destruct Hhi as [?|(ki & Hki & Hkit)]; [done|].
  destruct (lookup_lt_is_Some_2 (items (values self)) (i - 1)) as [m Hmv]; [lia|].
  destruct (lookup_lt_is_Some_2 (items (values self)) i) as [M HMv]; [lia|].
  destruct (lookup_lt_is_Some_2 (items (motion_types self)) (i - 1)) as [f Hf]; [lia|].
  assert ((kp <=? time) = true) as Hle.
  { apply not_ltb_leb; [by apply ltb_number in Htl as [? ?]| |done].
    eapply Forall_lookup_1 in Hnum; [exact Hnum|exact Hkp]. }
  exists kp, ki, m, M, f. split_and!; try done; try lia.
  unfold __call__. run_method.
  rewrite len_length. fold ks.
  destruct (Z.eqb_spec (Z.of_nat (length ks)) 0); [lia|].
  destruct (Z.eqb_spec (Z.of_nat (length ks)) 1); [lia|].
  rewrite (getitem_nat (keyframes self) 0 first_ Hfirst : getitem _ 0 = _).
  rewrite (leb_not_ltb _ _ Hft).
  rewrite (getitem_last (keyframes self) last_ Hlast).
  rewrite (ltb_not_leb _ _ Htl).
  fold i.
  rewrite (getitem_pred (values self) i m), (getitem_nat (values self) i M),
    (getitem_nat (keyframes self) i ki), (getitem_pred (keyframes self) i kp),
    (getitem_pred (motion_types self) i f) by (done || lia).
  unfold truediv.
  rewrite (sub_nonzero kp ki) by (by eapply leb_ltb_trans).
  by destruct (easing_call f _).
Qed.

(** At or after the last keyframe the last value comes back. *)
Lemma call_at_or_after_last `{Libm} (self : Motion) (time last_ : float) (vn : value) :
  Motion_inv self →
  last (items (keyframes self)) = Some last_ →
  last (items (values self)) = Some vn →
  (last_ <=? time) = true →
  __call__ time self = (Ok vn, self).
Proof.
  intros [Hv Hm Hasc] Hlast Hvn Hle.
  set (ks := items (keyframes self)) in *.
  set (vs := items (values self)) in *.
  assert (1 ≤ length ks)%nat as Hn.
  { rewrite last_lookup in Hlast. apply lookup_lt_Some in Hlast. lia. }
  destruct (lookup_lt_is_Some_2 ks 0) as [first_ Hfirst]; [lia|].
  destruct (lookup_lt_is_Some_2 vs 0) as [v0 Hv0]; [lia|].
  unfold __call__. run_method. rewrite len_length. fold ks.
  destruct (Z.eqb_spec (Z.of_nat (length ks)) 0); [lia|].
  destruct (Z.eqb_spec (Z.of_nat (length ks)) 1) as [E|E].
  { rewrite (getitem_nat (values self) 0 v0 Hv0 : getitem _ 0 = _).
    rewrite last_lookup in Hvn.
    replace (pred (length vs)) with 0%nat in Hvn by lia. congruence. }
  rewrite (getitem_nat (keyframes self) 0 first_ Hfirst : getitem _ 0 = _).
  assert ((first_ <=? last_) = true) as Hfl.
  { rewrite last_lookup in Hlast.
    eapply (ascending_lookup ks 0 (pred (length ks))); [done|lia|done..]. }
  rewrite (leb_not_ltb first_ time) by (by eapply leb_trans).
  rewrite (getitem_last (keyframes self) last_ Hlast), Hle.
  by rewrite (getitem_last (values self) vn Hvn).
Qed.

Lemma bisect_all_le (a : list float) (x : float) :
  Forall (λ y, (y <=? x) = true) a → bisect a x = length a.
Proof.
  intros Hall. destruct (bisect_spec a x) as (_ & _ & [?|(y & Hy & Hlt)]); [done|].
  eapply Forall_lookup_1 in Hall; [|exact Hy].
  apply leb_not_ltb in Hall. congruence.
Qed.

Lemma bisect_nan (a : list float) (x : float) :
  is_number x = false → bisect a x = length a.
Proof.
  intros Hx. destruct (bisect_spec a x) as (_ & _ & [?|(y & Hy & Hlt)]); [done|].
  apply ltb_number in Hlt as [? _]. congruence.
Qed.

Lemma list_insert_at_end {A} (x : A) (l : list A) :
  list_insert_at (length l) x l = l ++ [x].
Proof. unfold list_insert_at. by rewrite firstn_all, drop_all. Qed.

(** X6. [__call__] only reads: for every curve, aligned or not, and every
    time, the curve after the call is the curve before it, whether the call
    returned or raised. *)
Theorem call_never_modifies `{Libm} (self : Motion) (time : float) :
  (__call__ time self).2 = self.
Proof. apply call_unmodified. Qed.

(** X7. It does not matter to [__call__] whether the curve holds lists, as
    after [append], or tuples, as after [extend]: curves with the same items
    and default value give the same result or raise the same error. *)
Theorem call_list_or_tuple `{Libm} (ks : list float) (vs : list value)
    (ms : list easing) (dv : option value) (time : float) :
  (__call__ time {| keyframes := PyList ks; values := PyList vs;
                    motion_types := PyList ms; default_value := dv |}).1 =
  (__call__ time {| keyframes := PyTuple ks; values := PyTuple vs;
                    motion_types := PyTuple ms; default_value := dv |}).1.
Proof. by apply call_same_items. Qed.

(** X8. A keyframe appended at or after all existing ones is read back: from
    its time on, [__call__] returns the value that was appended. *)
Theorem append_last_then_call `{Libm} (self self' : Motion)
    (keyframe : float) (value : value) (motion_type : string) (time : float) :
  Motion_inv self →
  is_number keyframe = true →
  Forall (λ k, (k <=? keyframe) = true) (items (keyframes self)) →
  append keyframe value motion_type self = (Ok (), self') →
  (keyframe <=? time) = true →
  __call__ time self' = (Ok (_cast value), self').
Proof.
  intros [Hv Hm Hasc] Hk Hall (ks & vs & ms & f & Hself & _ & ->)%append_Ok Hle.
  rewrite Hself in Hv, Hm, Hasc, Hall. simpl in *.
  pose proof (list_insert_at_ascending ks keyframe Hasc Hk) as Hasc'.
  rewrite (bisect_all_le ks keyframe Hall) in *.
  assert (list_insert_at (length ks) (_cast value) vs = vs ++ [_cast value]) as ->
    by (rewrite <-Hv; apply list_insert_at_end).
  assert (list_insert_at (length ks) f ms = ms ++ [f]) as ->
    by (rewrite <-Hm; apply list_insert_at_end).
  rewrite list_insert_at_end in *.
  apply (call_at_or_after_last _ time keyframe).
  - split; simpl; [by rewrite !length_app, Hv|by rewrite !length_app, Hm|done].
  - simpl. by rewrite last_snoc.
  - simpl. by rewrite last_snoc.
  - done.
Qed.

Lemma append_last_then_call_witness :
  __call__ (H := linear_only) 25 (append 20 (VFloat 7) "ease_in" two_keyframes).2
  = (Ok (VFloat 7), (append 20 (VFloat 7) "ease_in" two_keyframes).2).
Proof.
  assert (Motion_inv two_keyframes) as Hinv
    by (split; [reflexivity..|]; split; repeat constructor).
  refine (append_last_then_call (H := linear_only) two_keyframes _ 20 (VFloat 7)
            "ease_in"%string 25 Hinv eq_refl _ eq_refl eq_refl).
  repeat constructor.
Defined.

Lemma list_insert_at_lookup {A} (i : nat) (x : A) (l : list A) :
  (i ≤ length l)%nat →
  list_insert_at i x l !! i = Some x ∧ delete i (list_insert_at i x l) = l.
Proof.
  intros Hl. unfold list_insert_at.
  assert (length (take i l) = i) as Hlen by (rewrite length_take; lia).
  split.
  - rewrite lookup_app_r by lia. by rewrite Hlen, Nat.sub_diag.
  - rewrite <-Hlen at 1. rewrite delete_middle. apply take_drop.
Qed.

(** X9. [append] puts the keyframe, its value and its easing at the same
    index, the one [bisect] gives for the old keyframes, and keeps everything
    else: removing that index gives the old sequences back. *)
Theorem append_inserts_at_bisect (self self' : Motion)
    (keyframe : float) (value : value) (motion_type : string) :
  length (items (values self)) = length (items (keyframes self)) →
  length (items (motion_types self)) = length (items (keyframes self)) →
  append keyframe value motion_type self = (Ok (), self') →
  let i := bisect (items (keyframes self)) keyframe in
  items (keyframes self') !! i = Some keyframe ∧
  items (values self') !! i = Some (_cast value) ∧
  (∃ f, motion_types_to_func !! motion_type = Some f ∧
        items (motion_types self') !! i = Some f) ∧
  delete i (items (keyframes self')) = items (keyframes self) ∧
  delete i (items (values self')) = items (values self) ∧
  delete i (items (motion_types self')) = items (motion_types self) ∧
  default_value self' = default_value self.
Proof.
  intros Hv Hm (ks & vs & ms & f & Hself & Hf & ->)%append_Ok.
  rewrite Hself in Hv, Hm |- *. simpl in *.
  destruct (bisect_spec ks keyframe) as (Hi & _).
  set (i := bisect ks keyframe) in *.
  destruct (list_insert_at_lookup i keyframe ks) as [? ?]; [lia|].
  destruct (list_insert_at_lookup i (_cast value) vs) as [? ?]; [lia|].
  destruct (list_insert_at_lookup i f ms) as [? ?]; [lia|].
  split_and!; try done.
  exists f. split; [|done].
  unfold func_of_name in Hf. by destruct (motion_types_to_func !! motion_type) as [g|];
    [injection Hf as ->|].
Qed.

Lemma append_inserts_at_bisect_witness :
  let self' := (append 5 (VFloat 50) "ease_out" two_keyframes).2 in
  items (keyframes self') !! 1%nat = Some 5 ∧
  items (values self') !! 1%nat = Some (VFloat 50) ∧
  items (motion_types self') !! 1%nat = Some ease_out ∧
  delete 1%nat (items (keyframes self')) = [0; 10].
Proof.
  destruct (append_inserts_at_bisect two_keyframes _ 5 (VFloat 50)
              "ease_out"%string eq_refl eq_refl eq_refl)
    as (Hk & Hv & (f & Hf & Hm) & Hdk & _).
  cbv zeta. injection Hf as <-. by split_and!.
Defined.

(** Before the first keyframe the first value comes back. *)
Lemma call_before_first `{Libm} (self : Motion) (time first_ : float) (v0 : value) :
  items (keyframes self) !! 0%nat = Some first_ →
  items (values self) !! 0%nat = Some v0 →
  (time <? first_) = true →
  __call__ time self = (Ok v0, self).
Proof.
  intros Hfirst Hv0 Hlt. pose proof (lookup_lt_Some _ _ _ Hfirst) as Hn.
  unfold __call__. run_method. rewrite len_length.
  destruct (Z.eqb_spec (Z.of_nat (length (items (keyframes self)))) 0); [lia|].
  destruct (Z.eqb_spec (Z.of_nat (length (items (keyframes self)))) 1).
  { by rewrite (getitem_nat (values self) 0 v0 Hv0 : getitem _ 0 = _). }
  rewrite (getitem_nat (keyframes self) 0 first_ Hfirst : getitem _ 0 = _), Hlt.
  by rewrite (getitem_nat (values self) 0 v0 Hv0 : getitem _ 0 = _).
Qed.

(** X11. A curve that mixes scalars and pairs cannot be evaluated between a
    scalar and a pair: [__call__] raises [ValueError] there (shown for the
    linear easing, which itself cannot raise). *)
Theorem call_mixed_values_raise `{Libm} (self : Motion) (time first_ last_ : float) :
  Motion_inv self →
  (2 ≤ length (items (keyframes self)))%nat →
  items (keyframes self) !! 0%nat = Some first_ →
  last (items (keyframes self)) = Some last_ →
  (first_ <=? time) = true →
  (time <? last_) = true →
  let i := bisect (items (keyframes self)) time in
  items (motion_types self) !! (i - 1)%nat = Some linear →
  (∃ a b0 b1, items (values self) !! (i - 1)%nat = Some (VFloat a) ∧
              items (values self) !! i = Some (VTuple b0 b1)) ∨
  (∃ a0 a1 b, items (values self) !! (i - 1)%nat = Some (VTuple a0 a1) ∧
              items (values self) !! i = Some (VFloat b)) →
  __call__ time self = (Raise (ValueError "Unexpected value"), self).
Proof.
  intros Hinv Hn Hfirst Hlast Hft Htl.
  destruct (call_between self time first_ last_ Hinv Hn Hfirst Hlast Hft Htl)
    as (kp & ki & m & M & f & Hc).
  cbv zeta in *. destruct Hc as (_ & _ & _ & Hm & HM & Hf & ->).
  intros Hlin Hmixed. rewrite Hf in Hlin. injection Hlin as ->. simpl.
  destruct Hmixed as [(a & b0 & b1 & H1 & H2)|(a0 & a1 & b & H1 & H2)];
    rewrite Hm in H1; rewrite HM in H2;
    injection H1 as ->; injection H2 as ->; done.
Qed.

(** A curve from a scalar to a pair. *)
Definition mixed_keyframes : Motion :=
  {| keyframes := PyList [0; 10]; values := PyList [VFloat 0; VTuple 1 2];
     motion_types := PyList [linear; linear]; default_value := None |}.

Lemma call_mixed_values_raise_witness :
  __call__ (H := linear_only) 5 mixed_keyframes
    = (Raise (ValueError "Unexpected value"), mixed_keyframes).
Proof.
  assert (Motion_inv mixed_keyframes) as Hinv
    by (split; [reflexivity..|]; split; repeat constructor).
  refine (call_mixed_values_raise (H := linear_only) mixed_keyframes 5 0 10
            Hinv (le_n 2) eq_refl eq_refl eq_refl eq_refl eq_refl _).
  left. by exists 0, 1, 2.
Defined.

(** X12. On a curve of scalars with linear easings and at least one keyframe,
    [__call__] returns a scalar at every time that is a number: it raises
    nothing and leaves the curve as it is. *)
Theorem call_scalar_linear_returns `{Libm} (self : Motion) (time : float) :
  Motion_inv self →
  (1 ≤ length (items (keyframes self)))%nat →
  Forall (λ v, ∃ a, v = VFloat a) (items (values self)) →
  Forall (λ f, f = linear) (items (motion_types self)) →
  is_number time = true →
  ∃ a, __call__ time self = (Ok (VFloat a), self).
Proof.
  intros Hinv Hn Hscalar Hlinear Htime.
  pose proof Hinv as [Hv Hm [Hnum Hsort]].
  set (ks := items (keyframes self)) in *.
  set (vs := items (values self)) in *.
  destruct (lookup_lt_is_Some_2 ks 0) as [first_ Hfirst]; [lia|].
  destruct (lookup_lt_is_Some_2 ks (pred (length ks))) as [last_ Hlast]; [lia|].
  destruct (lookup_lt_is_Some_2 vs 0) as [v0 Hv0]; [lia|].
  destruct (lookup_lt_is_Some_2 vs (pred (length vs))) as [vn Hvn]; [lia|].
  rewrite <-last_lookup in Hlast. rewrite <-last_lookup in Hvn.
  destruct (Forall_lookup_1 _ _ _ _ Hscalar Hv0) as [a0 ->].
  assert (∃ an, vn = VFloat an) as [an ->].
  { rewrite last_lookup in Hvn. exact (Forall_lookup_1 _ _ _ _ Hscalar Hvn). }
  destruct (time <? first_) eqn:Hlt.
  { exists a0. by apply (call_before_first self time first_). }
  destruct (last_ <=? time) eqn:Hle.
  { exists an. by apply (call_at_or_after_last self time last_). }
  assert (is_number first_ = true) as Hf1
    by exact (Forall_lookup_1 _ _ _ _ Hnum Hfirst).
  assert (is_number last_ = true) as Hl1.
  { rewrite last_lookup in Hlast. exact (Forall_lookup_1 _ _ _ _ Hnum Hlast). }
  assert (2 ≤ length ks)%nat as Hn2.
  { destruct (decide (length ks = 1%nat)) as [E|]; [|lia].
    rewrite last_lookup, E in Hlast. simpl in Hlast.
    rewrite Hfirst in Hlast. injection Hlast as <-.
    apply not_ltb_leb in Hlt; [congruence|done..]. }
  destruct (call_between self time first_ last_ Hinv Hn2 Hfirst Hlast)
    as (kp & ki & m & M & f & Hc).
  { by apply not_ltb_leb. }
  { by apply not_leb_ltb. }
  cbv zeta in Hc. destruct Hc as (_ & _ & _ & Hm' & HM & Hf & ->).
  destruct (Forall_lookup_1 _ _ _ _ Hscalar Hm') as [a ->].
  destruct (Forall_lookup_1 _ _ _ _ Hscalar HM) as [b ->].
  rewrite (Forall_lookup_1 _ _ _ _ Hlinear Hf). simpl. eauto.
Qed.

Lemma call_scalar_linear_returns_witness :
  ∃ a, __call__ (H := linear_only) 2.5 two_keyframes = (Ok (VFloat a), two_keyframes).
Proof.
  assert (Motion_inv two_keyframes) as Hinv
    by (split; [reflexivity..|]; split; repeat constructor).
  refine (call_scalar_linear_returns (H := linear_only) two_keyframes 2.5
            Hinv (le_S _ _ (le_n 1)) _ _ eq_refl).
  - repeat constructor; by eexists.
  - by repeat constructor.
Defined.

Lemma getitem_len {A} (s : pyseq A) : getitem s (len s) = Raise IndexError.
Proof.
  unfold getitem. pose proof (Nat2Z.is_nonneg (length (items s))).
  unfold len in *.
  destruct (Z.ltb_spec (Z.of_nat (length (items s))) 0); [lia|].
  destruct (Z.ltb_spec (Z.of_nat (length (items s))) 0); [lia|].
  by rewrite Z.leb_refl.
Qed.

(** X13. A time that is NaN is neither before the first keyframe nor at or
    after the last, and [bisect] puts it past the end: on a curve with two or
    more keyframes [__call__] raises [IndexError]. *)
Theorem call_nan_raises `{Libm} (self : Motion) (time : float) :
  is_number time = false →
  (2 ≤ length (items (keyframes self)))%nat →
  length (items (values self)) = length (items (keyframes self)) →
  __call__ time self = (Raise IndexError, self).
Proof.
  intros Hnan Hn Hv.
  set (ks := items (keyframes self)) in *.
  destruct (lookup_lt_is_Some_2 ks 0) as [first_ Hfirst]; [lia|].
  destruct (lookup_lt_is_Some_2 ks (pred (length ks))) as [last_ Hlast]; [lia|].
  destruct (lookup_lt_is_Some_2 (items (values self)) (length ks - 1))
    as [m Hm]; [lia|].
  rewrite <-last_lookup in Hlast.
  assert ((time <? first_) = false) as Hlt.
  { destruct (time <? first_) eqn:E; [|done].
    apply ltb_number in E as [? _]. congruence. }
  assert ((last_ <=? time) = false) as Hle.
  { destruct (last_ <=? time) eqn:E; [|done].
    apply leb_number in E as [_ ?]. congruence. }
  unfold __call__. run_method. rewrite len_length. fold ks.
  destruct (Z.eqb_spec (Z.of_nat (length ks)) 0); [lia|].
  destruct (Z.eqb_spec (Z.of_nat (length ks)) 1); [lia|].
  rewrite (getitem_nat (keyframes self) 0 first_ Hfirst : getitem _ 0 = _), Hlt.
  rewrite (getitem_last (keyframes self) last_ Hlast), Hle.
  rewrite (bisect_nan ks time Hnan).
  rewrite (getitem_pred (values self) (length ks) m) by (done || lia).
  pose proof (getitem_len (values self)) as Hend.
  unfold len in Hend. rewrite Hv in Hend. fold ks in Hend. by rewrite Hend.
Qed.

Lemma call_nan_raises_witness :
  __call__ (H := linear_only) nan two_keyframes = (Raise IndexError, two_keyframes).
Proof.
  exact (call_nan_raises (H := linear_only) two_keyframes nan eq_refl (le_n 2) eq_refl).
Defined.

End motion_call_more.

(** ** Further properties of [Character] *)

Module commentary_more.
Import timeline commentary commentary_facts.

(** X14. What [get_eye_state] can return for the emotion at [idx]: [-1] when
    the emotion has no eye images, [0] when it has exactly one, both at every
    time and without drawing; otherwise, the list of eye images not being
    empty, never an index past the last eye image. *)
Theorem get_eye_state_result `{Platform} (w : world) (time : float) (idx : Z)
    (emotion : string) :
  getitem (PyList (character_timeline (self_ w))) idx = Ok emotion →
  match eye_imgs (self_ w) !! emotion with
  | None => get_eye_state time idx w = (Ok (-1)%Z, w)
  | Some eyes =>
      (length eyes = 1%nat → get_eye_state time idx w = (Ok 0%Z, w)) ∧
      (∀ r, (1 ≤ length eyes)%nat → (get_eye_state time idx w).1 = Ok r →
            (r ≤ Z.of_nat (length eyes) - 1)%Z)
  end.
Proof.
  intros Hem. unfold get_eye_state. run_method. rewrite Hem. simpl.
  destruct (eye_imgs (self_ w) !! emotion) as [eyes|]; [|done].
  split.
  - intros ->. done.
  - intros r Hne. destruct (Z.eqb_spec (Z.of_nat (length eyes)) 1) as [->|_].
    { simpl. intros [= <-]. lia. }
    repeat (match goal with
            | |- context [match ?x with _ => _ end] => destruct x
            end; simpl; try done);
      intros [= <-]; lia.
Qed.

(** A character with one emotion that has three eye images. *)
Definition blinking : Character :=
  {| timeline := {| start_times := [0; 10]; end_times := [10; 20]; cache := None |};
     character_name := "zunda";
     character_imgs := {[ "n"%string := Path "zunda/n.png" ]};
     eye_imgs := {[ "n"%string := [Path "zunda/n.eye.png"; Path "zunda/n.eye.1.png";
                                   Path "zunda/n.eye.2.png"] ]};
     character_timeline := ["n"; "n"]%string;
     blink_per_minute := 3;
     blink_duration := 0.25 |}.

(** A platform for running examples: the digest is the length of the text,
    every draw is [2^-10], an image is the length of its path. *)
Definition example_platform : Platform :=
  {| sha224_digest := λ s, [Z.of_nat (String.length s); 0; 0; 0]%Z;
     random_state_rand := λ _, 0.0009765625;
     open_rgba := λ p, NDArray [Z.of_nat (String.length p)];
     alpha_composite := λ a b,
       match a, b with NDArray x, NDArray y => NDArray (x ++ y) end |}.

Lemma get_eye_state_result_witness :
  ∃ r, (get_eye_state (H := example_platform) 1.125 0
          {| self_ := blinking; np_random := 0 |}).1 = Ok r ∧ (r ≤ 2)%Z.
Proof.
  pose proof (get_eye_state_result (H := example_platform)
                {| self_ := blinking; np_random := 0 |} 1.125 0 "n" eq_refl) as Hr.
  eexists. split; [vm_compute; reflexivity|].
  apply (proj2 Hr); [simpl; lia|]. vm_compute. reflexivity.
Defined.

(** X15. Outside every interval ([get_state] negative) [__call__] returns
    [None] and [get_key] returns [('', -1)]; neither opens an image. *)
Theorem outside_intervals `{Platform} (w : world) (time : float) :
  ((resolve time (timeline (self_ w))).1 < 0)%Z →
  (__call__ time w).1 = Ok None ∧
  (get_key time w).1 = Ok (""%string, (-1)%Z) ∧
  character_imgs (self_ (__call__ time w).2) = character_imgs (self_ w) ∧
  eye_imgs (self_ (__call__ time w).2) = eye_imgs (self_ w) ∧
  character_imgs (self_ (get_key time w).2) = character_imgs (self_ w) ∧
  eye_imgs (self_ (get_key time w).2) = eye_imgs (self_ w).
Proof.
  intros Hneg. unfold __call__, get_key, get_state. run_method.
  destruct (resolve time (timeline (self_ w))) as [idx t]. simpl in *.
  apply Z.ltb_lt in Hneg. by rewrite Hneg.
Qed.

Lemma outside_intervals_witness :
  (__call__ (H := example_platform) 25 {| self_ := blinking; np_random := 0 |}).1
    = Ok None ∧
  (get_key (H := example_platform) 25 {| self_ := blinking; np_random := 0 |}).1
    = Ok (""%string, (-1)%Z).
Proof.
  destruct (outside_intervals (H := example_platform)
              {| self_ := blinking; np_random := 0 |} 25) as (H1 & H2 & _).
  - vm_compute. reflexivity.
  - by split.
Defined.

(** Asking the timeline again for the same time answers from the memo. *)
Lemma resolve_again (time : float) (tl : TimelineIndex) :
  resolve time (resolve time tl).2 = resolve time tl.
Proof.
  assert (PrimFloat.Leibniz.eqb time time = true) as Hrefl
    by (by apply FloatAxioms.Leibniz.eqb_spec).
  unfold resolve. destruct (cache tl) as [[t idx]|] eqn:Hc.
  - destruct (PrimFloat.Leibniz.eqb t time) eqn:E; simpl.
    + by rewrite Hc, E.
    + by rewrite Hrefl.
  - simpl. by rewrite Hrefl.
Qed.

(** Reading back what [l[i] = x] wrote. *)
Lemma setitem_getitem {A} (l l' : list A) (i : Z) (x : A) :
  setitem l i x = Ok l' → getitem (PyList l') i = Ok x.
Proof.
  unfold setitem, getitem, len. simpl.
  destruct (_ || _) eqn:E; [done|]. intros [= <-].
  rewrite length_insert, E.
  apply orb_false_elim in E as [E1 E2].
  apply Z.ltb_ge in E1. apply Z.leb_gt in E2.
  rewrite list_lookup_insert_eq; [done|lia].
Qed.


(** The second half of [__call__]: the eyes drawn over the character. *)
Definition render_eyes `{Platform} (time : float) (idx : Z) (emotion : string)
    (base_img : ndarray) : method (option ndarray) :=
  self ← get;
  match eye_imgs self !! emotion with
  | Some eyes =>
      eye_number ← get_eye_state time idx;
      self ← get;
      eyes ← lift (dict_getitem (eye_imgs self) emotion);
      eye ← lift (getitem (PyList eyes) eye_number);
      eye_img ←
        match eye with
        | Path p =>
            let eye_img := open_rgba p in
            eyes' ← lift (setitem eyes eye_number (Array eye_img));
            modify (λ c, set_eye_imgs (<[emotion := eyes']> (eye_imgs c)) c);;
            mret eye_img
        | Array a => mret a
        end;
      mret (Some (alpha_composite base_img eye_img))
  | None => mret (Some base_img)
  end.

Lemma call_unfold `{Platform} (time : float) :
  __call__ time =
  (idx ← get_state time;
   if (idx <? 0)%Z then mret None
   else
     self ← get;
     emotion ← lift (getitem (PyList (character_timeline self)) idx);
     character ← lift (dict_getitem (character_imgs self) emotion);
     base_img ←
       match character with
       | Path p =>
           let base_img := open_rgba p in
           modify (λ c, set_character_imgs (<[emotion := Array base_img]> (character_imgs c)) c);;
           mret base_img
       | Array a => mret a
       end;
     render_eyes time idx emotion base_img).
Proof. reflexivity. Qed.

Lemma get_eye_state_transfer `{Platform} (w1 w2 : world) time idx re :
  same_configuration (self_ w1) (self_ w2) →
  get_eye_state time idx w1 = (re, w1) →
  get_eye_state time idx w2 = (re, w2).
Proof.
  intros Hcfg E.
  rewrite (surjective_pairing (get_eye_state time idx w2)).
  rewrite get_eye_state_unmodified.
  rewrite <-(get_eye_state_configuration w1 w2 time idx Hcfg). by rewrite E.
Qed.

(** Drawing the eyes again gives the same image and changes nothing more;
    the first time only the eye images change. *)
Lemma render_eyes_again `{Platform} (w w' : world) time idx emotion base r :
  render_eyes time idx emotion base w = (Ok r, w') →
  render_eyes time idx emotion base w' = (Ok r, w') ∧
  timeline (self_ w') = timeline (self_ w) ∧
  character_timeline (self_ w') = character_timeline (self_ w) ∧
  character_imgs (self_ w') = character_imgs (self_ w).
Proof.
  unfold render_eyes. run_method.
  destruct (eye_imgs (self_ w) !! emotion) as [eyes|] eqn:Heyes.
  2:{ intros [= <- <-]. by rewrite Heyes. }
  pose proof (get_eye_state_unmodified w time idx) as Hun.
  destruct (get_eye_state time idx w) as [[eye_number|] w1] eqn:Hes;
    simpl in Hun; subst w1; simpl; [|done].
  unfold dict_getitem at 1. rewrite Heyes. simpl.
  destruct (getitem (PyList eyes) eye_number) as [[q|b]|] eqn:Hget; simpl; [| |done].
  - destruct (setitem eyes eye_number (Array (open_rgba q))) as [eyes'|] eqn:Hset;
      simpl; [|done].
    intros [= <- <-]. simpl. split; [|done].
    rewrite lookup_insert_eq.
    erewrite (get_eye_state_transfer w); [| |exact Hes].
    2:{ simpl. apply set_eye_imgs_configuration with eyes; [done|].
        by eapply setitem_length. }
    simpl. unfold dict_getitem. rewrite lookup_insert_eq. simpl.
    by rewrite (setitem_getitem _ _ _ _ Hset).
  - intros [= <- <-]. rewrite Heyes, Hes. simpl.
    unfold dict_getitem. rewrite Heyes. simpl. by rewrite Hget.
Qed.

Lemma set_timeline_same (c : Character) : set_timeline (timeline c) c = c.
Proof. by destruct c. Qed.

(** Once the time is in the memo and the image of the emotion is loaded,
    [__call__] has only the eyes left to draw. *)
Lemma call_loaded `{Platform} (w : world) time idx emotion base :
  resolve time (timeline (self_ w)) = (idx, timeline (self_ w)) →
  (idx <? 0)%Z = false →
  getitem (PyList (character_timeline (self_ w))) idx = Ok emotion →
  character_imgs (self_ w) !! emotion = Some (Array base) →
  __call__ time w = render_eyes time idx emotion base w.
Proof.
  intros Hres Hidx Hem Hch. rewrite call_unfold. unfold get_state. run_method.
  rewrite Hres. simpl. rewrite Hidx, set_timeline_same. simpl. rewrite Hem. simpl.
  unfold dict_getitem. rewrite Hch. simpl. by destruct w.
Qed.

(** X16. Loading lazily does not show: when [__call__] has returned an image
    for a time, calling it again for that time returns the same image and
    changes nothing any more. *)
Theorem call_again `{Platform} (w w' : world) (time : float) (r : option ndarray) :
  __call__ time w = (Ok r, w') →
  __call__ time w' = (Ok r, w').
Proof.
  intros Hcall. rewrite (call_unfold time) in Hcall.
  unfold get_state at 1 in Hcall.
  unfold mbind, method_bind, mret, method_ret, get, lift, modify in Hcall.
  cbn beta iota in Hcall.
  pose proof (resolve_again time (timeline (self_ w))) as Hagain.
  destruct (resolve time (timeline (self_ w))) as [idx tl] eqn:Hres.
  simpl in Hagain. simpl in Hcall.
  destruct (idx <? 0)%Z eqn:Hidx; simpl in Hcall.
  { injection Hcall as <- <-. rewrite call_unfold. unfold get_state. run_method. simpl.
    by rewrite Hagain, Hidx. }
  destruct (getitem (PyList (character_timeline (self_ w))) idx)
    as [emotion|] eqn:Hem; simpl in Hcall; [|done].
  unfold dict_getitem at 1 in Hcall.
  destruct (character_imgs (self_ w) !! emotion) as [[p|a]|] eqn:Hch;
    simpl in Hcall; [| |done].
  - apply render_eyes_again in Hcall as (Hr & Htl & Hct & Hci). simpl in *.
    rewrite <-Hr. apply call_loaded.
    + by rewrite Htl.
    + done.
    + by rewrite Hct.
    + by rewrite Hci, lookup_insert_eq.
  - apply render_eyes_again in Hcall as (Hr & Htl & Hct & Hci). simpl in *.
    rewrite <-Hr. apply call_loaded.
    + by rewrite Htl.
    + done.
    + by rewrite Hct.
    + by rewrite Hci.
Qed.

Lemma call_again_witness :
  ∃ r w',
    __call__ (H := example_platform) 1.125 {| self_ := blinking; np_random := 0 |}
      = (Ok r, w') ∧
    __call__ (H := example_platform) 1.125 w' = (Ok r, w').
Proof.
  eexists _, _. split; [vm_compute; reflexivity|].
  apply (call_again (H := example_platform) {| self_ := blinking; np_random := 0 |}).
  vm_compute. reflexivity.
Defined.

End commentary_more.

(** ** Facts about [Character.__init__] *)

Module character_init_facts.
Import timeline commentary commentary_facts commentary_more character_init.

Lemma collect_emotions_spec (name : string) (cs ss : list string) (init e : string) :
  e ∈ collect_emotions name cs ss init ↔ e = init ∨ (name, e) ∈ zip cs ss.
Proof.
  unfold collect_emotions.
  assert (∀ l (acc : gset string),
    e ∈ foldl (λ (emotions : gset string) '(character, status),
                 if String.eqb character name
                 then emotions ∪ {[status]} else emotions) acc l
    ↔ e ∈ acc ∨ (name, e) ∈ l) as Hfold.
  { induction l as [|[c s] l IH]; intros acc; simpl.
    - rewrite elem_of_nil. tauto.
    - rewrite IH, elem_of_cons. destruct (String.eqb_spec c name) as [->|Hne].
      + rewrite elem_of_union, elem_of_singleton. split.
        * intros [[?| ->]|?]; auto.
        * intros [?|[[= ->]|?]]; auto.
      + split; [intros [?|?]; auto|].
        intros [?|[[= ? ?]|?]]; auto. congruence. }
  rewrite elem_of_union, Hfold, elem_of_singleton, elem_of_empty. tauto.
Qed.

Lemma build_timeline_length (name status : string) (lines : list (string * string)) :
  length (build_timeline name status lines) = length lines.
Proof.
  revert status. induction lines as [|[c s] lines IH]; intros status; simpl; [done|].
  by rewrite IH.
Qed.

Lemma build_timeline_elem (name status e : string) (lines : list (string * string)) :
  e ∈ build_timeline name status lines → e = status ∨ (name, e) ∈ lines.
Proof.
  revert status. induction lines as [|[c s] lines IH]; intros status; simpl.
  - by intros ?%elem_of_nil.
  - rewrite !elem_of_cons. destruct (String.eqb_spec c name) as [->|Hne].
    + intros [->|[->|?]%IH]; auto.
    + intros [->|[->|?]%IH]; auto.
Qed.

Lemma build_timeline_lookup (name status e : string)
    (lines : list (string * string)) (i : nat) :
  build_timeline name status lines !! i = Some e →
  (∃ j, (j ≤ i)%nat ∧ lines !! j = Some (name, e) ∧
        ∀ k c s, (j < k ≤ i)%nat → lines !! k = Some (c, s) → c ≠ name)
  ∨ (e = status ∧ ∀ k c s, (k ≤ i)%nat → lines !! k = Some (c, s) → c ≠ name).
Proof.
  revert status i. induction lines as [|[c0 s0] lines IH]; intros status i; simpl;
    [done|].
  destruct i as [|i]; simpl.
  - intros [= <-]. destruct (String.eqb_spec c0 name) as [->|Hne].
    + left. exists 0%nat. split_and!; [lia|done|]. intros k c s ?. lia.
    + right. split; [done|]. intros k c s Hk. assert (k = 0)%nat as -> by lia.
      by intros [= <- _].
  - intros [(j & Hj & Hl & Hno)|[-> Hno]]%IH.
    + left. exists (S j). split_and!; [lia|done|].
      intros [|k] c s Hk; [lia|]. simpl. apply Hno. lia.
    + destruct (String.eqb_spec c0 name) as [->|Hne].
      * left. exists 0%nat. split_and!; [lia|done|].
        intros [|k] c s Hk; [lia|]. simpl. apply Hno. lia.
      * right. split; [done|]. intros [|k] c s Hk; simpl.
        -- by intros [= <- _].
        -- apply Hno. lia.
Qed.

Lemma init_Ok `{FileSystem} (start_times end_times : list float)
    (name dir : string) (characters character_status : list string)
    (initial_status : string) (bpm : Z) (bd : float) (c : Character) :
  __init__ start_times end_times name dir characters character_status
           initial_status bpm bd = Ok c →
  length start_times = length characters ∧
  length characters = length character_status ∧
  character_name c = name ∧
  character_imgs c =
    set_to_map (λ emotion, (emotion, Path (joinpath dir (emotion +:+ ".png"))))
      (collect_emotions name characters character_status initial_status) ∧
  eye_imgs c =
    set_to_map (λ emotion, (emotion, eyes_of dir emotion))
      (filter (λ emotion, path_exists (eye_path dir emotion) = true)
         (collect_emotions name characters character_status initial_status)) ∧
  character_timeline c =
    build_timeline name initial_status (zip characters character_status).
Proof.
  unfold __init__. case_bool_decide as Hlen; simpl; [|done].
  destruct (make start_times end_times) as [tl|]; simpl; [|done].
  intros [= <-]. simpl. by destruct Hlen.
Qed.

Lemma character_imgs_lookup `{FileSystem} (dir : string) (emotions : gset string) (e : string) (img : image) :
  (set_to_map (λ emotion, (emotion, Path (joinpath dir (emotion +:+ ".png")))) emotions
     : gmap string image) !! e = Some img
  ↔ e ∈ emotions ∧ img = Path (joinpath dir (e +:+ ".png")).
Proof.
  rewrite lookup_set_to_map; [|by intros ???? [= ->]].
  split.
  - by intros (e' & He & [= -> ->]).
  - intros [He ->]. by exists e.
Qed.

Lemma eye_imgs_lookup `{FileSystem} (dir : string) (emotions : gset string)
    (e : string) (eyes : list image) :
  (set_to_map (λ emotion, (emotion, eyes_of dir emotion))
     (filter (λ emotion, path_exists (eye_path dir emotion) = true) emotions)
     : gmap string (list image)) !! e = Some eyes
  ↔ e ∈ emotions ∧ path_exists (eye_path dir e) = true ∧ eyes = eyes_of dir e.
Proof.
  rewrite lookup_set_to_map; [|by intros ???? [= ->]].
  setoid_rewrite elem_of_filter. split.
  - by intros (e' & [Hex He] & [= -> ->]).
  - intros (He & Hex & ->). by exists e.
Qed.

Lemma zip_lookup_Some {A B} (l : list A) (k : list B) (i : nat) (a : A) (b : B) :
  zip l k !! i = Some (a, b) ↔ l !! i = Some a ∧ k !! i = Some b.
Proof.
  rewrite lookup_zip_with_Some. split.
  - by intros (x & y & [= -> ->] & ? & ?).
  - intros [? ?]. by exists a, b.
Qed.

(** X17. A character that [Character.__init__] has built has one timeline
    entry per line of the script, the image path that pathlib joins from
    the directory and [<status>.png] for every status on that timeline, and
    image entries for exactly the initial status and the statuses of its own
    lines. *)
Theorem init_images `{FileSystem} (start_times end_times : list float)
    (name dir : string) (characters character_status : list string)
    (initial_status : string) (bpm : Z) (bd : float) (c : Character) :
  __init__ start_times end_times name dir characters character_status
           initial_status bpm bd = Ok c →
  length (character_timeline c) = length start_times ∧
  (∀ emotion, emotion ∈ character_timeline c →
     character_imgs c !! emotion = Some (Path (joinpath dir (emotion +:+ ".png")))) ∧
  (∀ emotion, is_Some (character_imgs c !! emotion) ↔
     emotion = initial_status ∨
     ∃ i, characters !! i = Some name ∧ character_status !! i = Some emotion).
Proof.
  intros (Hl1 & Hl2 & _ & Himgs & _ & Htl)%init_Ok. rewrite Htl, Himgs.
  split_and!.
  - rewrite build_timeline_length, length_zip. lia.
  - intros emotion Hin%build_timeline_elem. apply character_imgs_lookup.
    split; [|done]. by apply collect_emotions_spec.
  - intros emotion. split.
    + intros [img [Hin _]%character_imgs_lookup].
      apply collect_emotions_spec in Hin as [->|[i Hi]%list_elem_of_lookup];
        [by left|right].
      exists i. by apply zip_lookup_Some.
    + intros Hin. eexists. apply character_imgs_lookup. split; [|done].
      apply collect_emotions_spec. destruct Hin as [->|(i & Hi)]; [by left|right].
      apply list_elem_of_lookup. exists i. by apply zip_lookup_Some.
Qed.

(** X18. The status on the timeline at line [i] is the status of the
    character's latest own line up to [i], or the initial status when it has
    had no line yet. *)
Theorem init_timeline_status `{FileSystem} (start_times end_times : list float)
    (name dir : string) (characters character_status : list string)
    (initial_status : string) (bpm : Z) (bd : float) (c : Character)
    (i : nat) (status : string) :
  __init__ start_times end_times name dir characters character_status
           initial_status bpm bd = Ok c →
  character_timeline c !! i = Some status →
  (∃ j, (j ≤ i)%nat ∧ characters !! j = Some name ∧
        character_status !! j = Some status ∧
        ∀ k, (j < k ≤ i)%nat → characters !! k ≠ Some name)
  ∨ (status = initial_status ∧ ∀ k, (k ≤ i)%nat → characters !! k ≠ Some name).
Proof.
  intros (Hl1 & Hl2 & _ & _ & _ & Htl)%init_Ok. rewrite Htl. intros Hi.
  assert (i < length characters)%nat as Hlt.
  { apply lookup_lt_Some in Hi.
    rewrite build_timeline_length, length_zip in Hi. lia. }
  assert (∀ k, (k ≤ i)%nat → characters !! k = Some name →
               ∃ s, zip characters character_status !! k = Some (name, s)) as Hzip.
  { intros k Hk Hc. destruct (lookup_lt_is_Some_2 character_status k) as [s Hs]; [lia|].
    exists s. by apply zip_lookup_Some. }
  apply build_timeline_lookup in Hi as [(j & Hj & Hl & Hno)|[-> Hno]].
  - left. exists j. apply zip_lookup_Some in Hl as [Hc Hs]. split_and!; try done.
    intros k Hk Hck. destruct (Hzip k) as [s Hs']; [lia|done|].
    by eapply (Hno k name s).
  - right. split; [done|]. intros k Hk Hck.
    destruct (Hzip k) as [s Hs']; [lia|done|]. by eapply (Hno k name s).
Qed.

(** X19. After [Character.__init__] an emotion has eye images exactly when
    it has a character image and its base eye file exists; the list starts
    with the base eye file, followed, in directory order, by the entries
    whose name starts with [<emotion>.eye.] and has four dot-separated
    parts. *)
Theorem init_eyes `{FileSystem} (start_times end_times : list float)
    (name dir : string) (characters character_status : list string)
    (initial_status : string) (bpm : Z) (bd : float) (c : Character)
    (emotion : string) :
  __init__ start_times end_times name dir characters character_status
           initial_status bpm bd = Ok c →
  (is_Some (eye_imgs c !! emotion) ↔
     is_Some (character_imgs c !! emotion) ∧
     path_exists (eye_path dir emotion) = true) ∧
  ∀ eyes, eye_imgs c !! emotion = Some eyes →
    ∃ frames,
      eyes = Path (eye_path dir emotion) :: (Path <$> frames) ∧
      frames `sublist_of` iterdir dir ∧
      ∀ f, f ∈ frames ↔
        f ∈ iterdir dir ∧
        String.prefix (emotion +:+ ".eye.") (path_name f) = true ∧
        split_length (path_name f) = 4%nat.
Proof.
  intros (_ & _ & _ & Himgs & Heyes & _)%init_Ok. rewrite Himgs, Heyes.
  split.
  - split.
    + intros [eyes (He & Hex & _)%eye_imgs_lookup]. split; [|done].
      eexists. by apply character_imgs_lookup.
    + intros [[img (He & _)%character_imgs_lookup] Hex].
      eexists. by apply eye_imgs_lookup.
  - intros eyes (_ & _ & ->)%eye_imgs_lookup. eexists. split; [reflexivity|]. split.
    + apply sublist_filter.
    + intros n. rewrite list_elem_of_filter. tauto.
Qed.

(** Every status on the timeline has an entry among the character images. *)
Definition renderable (c : Character) : Prop :=
  ∀ emotion, emotion ∈ character_timeline c →
             is_Some (character_imgs c !! emotion).

Lemma init_renderable `{FileSystem} (start_times end_times : list float)
    (name dir : string) (characters character_status : list string)
    (initial_status : string) (bpm : Z) (bd : float) (c : Character) :
  __init__ start_times end_times name dir characters character_status
           initial_status bpm bd = Ok c →
  renderable c.
Proof.
  intros (_ & _ & _ & Himgs & _ & Htl)%init_Ok emotion. rewrite Htl, Himgs.
  intros Hin%build_timeline_elem. eexists. apply character_imgs_lookup.
  split; [|done]. by apply collect_emotions_spec.
Qed.

Lemma float_of_int_key (n : Z) k : float_of_int n ≠ Raise (KeyError k).
Proof. unfold float_of_int. by destruct (is_infinity _). Qed.

Lemma int_of_float_key (x : float) k : int_of_float x ≠ Raise (KeyError k).
Proof. unfold int_of_float. by destruct (Prim2SF x). Qed.

Lemma truediv_key (a b : float) k : truediv a b ≠ Raise (KeyError k).
Proof. unfold truediv. by destruct (b =? 0). Qed.

Lemma rand_from_string_key `{Platform} (s : string) (seed : Z) k :
  rand_from_string s seed ≠ Raise (KeyError k).
Proof.
  unfold rand_from_string, first_uint32.
  by destruct (sha224_digest _) as [|? [|? [|? [|? ?]]]].
Qed.

Lemma getitem_key {A} (s : pyseq A) (i : Z) k : getitem s i ≠ Raise (KeyError k).
Proof.
  unfold getitem. destruct (_ || _); [done|]. by destruct (_ !! _).
Qed.

Lemma setitem_key {A} (l : list A) (i : Z) (x : A) k :
  setitem l i x ≠ Raise (KeyError k).
Proof. unfold setitem. by destruct (_ || _). Qed.

Lemma getitem_elem {A} (l : list A) (i : Z) (x : A) :
  getitem (PyList l) i = Ok x → x ∈ l.
Proof.
  unfold getitem. destruct (_ || _); [done|]. simpl.
  destruct (l !! _) eqn:E; [|done]. intros [= <-]. by eapply list_elem_of_lookup_2.
Qed.

Ltac no_key_error :=
  intros [= ->];
  match goal with
  | E : _ = Raise (KeyError _) |- _ =>
      by (apply float_of_int_key in E || apply int_of_float_key in E
          || apply truediv_key in E || apply rand_from_string_key in E
          || apply getitem_key in E || apply setitem_key in E)
  end.

Lemma get_eye_state_no_key_error `{Platform} (w : world) (time : float) (idx : Z) k :
  (get_eye_state time idx w).1 ≠ Raise (KeyError k).
Proof.
  unfold get_eye_state. run_method.
  repeat (match goal with
          | |- context [match ?x with _ => _ end] =>
              let E := fresh "E" in destruct x eqn:E
          end; simpl; try done; try no_key_error).
Qed.

Lemma render_eyes_character_imgs `{Platform} (w : world) time idx emotion base :
  character_imgs (self_ (render_eyes time idx emotion base w).2)
    = character_imgs (self_ w).
Proof.
  unfold render_eyes. run_method.
  destruct (eye_imgs (self_ w) !! emotion) as [eyes|] eqn:Heyes; [|done].
  pose proof (get_eye_state_unmodified w time idx) as Hun.
  destruct (get_eye_state time idx w) as [[eye_number|] w1];
    simpl in Hun; subst w1; simpl; [|done].
  unfold dict_getitem. rewrite Heyes. simpl.
  destruct (getitem (PyList eyes) eye_number) as [[q|b]|]; simpl.
  - by destruct (setitem eyes eye_number _).
  - done.
  - done.
Qed.

Lemma render_eyes_no_key_error `{Platform} (w : world) time idx emotion base k :
  (render_eyes time idx emotion base w).1 ≠ Raise (KeyError k).
Proof.
  unfold render_eyes. run_method.
  destruct (eye_imgs (self_ w) !! emotion) as [eyes|] eqn:Heyes; [|done].
  pose proof (get_eye_state_unmodified w time idx) as Hun.
  pose proof (get_eye_state_no_key_error w time idx k) as Hno.
  destruct (get_eye_state time idx w) as [[eye_number|] w1];
    simpl in Hun, Hno; subst w1; simpl; [|by intros [= ->]].
  unfold dict_getitem. rewrite Heyes. simpl.
  destruct (getitem (PyList eyes) eye_number) as [[q|b]|] eqn:E; simpl;
    [|done|no_key_error].
  by destruct (setitem eyes eye_number _) eqn:E'; simpl; [|no_key_error].
Qed.

(** [__call__] only ever adds to, or overwrites in, [character_imgs]. *)
Lemma call_character_imgs `{Platform} (w : world) (time : float) (emotion : string) :
  is_Some (character_imgs (self_ w) !! emotion) →
  is_Some (character_imgs (self_ (__call__ time w).2) !! emotion).
Proof.
  intros Hin. rewrite call_unfold. unfold get_state. run_method.
  destruct (resolve time (timeline (self_ w))) as [idx tl]. simpl.
  destruct (idx <? 0)%Z; [done|].
  destruct (getitem _ idx) as [emotion'|]; simpl; [|done].
  destruct (dict_getitem (character_imgs (self_ w)) emotion') as [[p|a]|];
    simpl; [| |done].
  - rewrite render_eyes_character_imgs. simpl.
    by apply lookup_insert_is_Some'; right.
  - by rewrite render_eyes_character_imgs.
Qed.

Lemma get_key_character_imgs `{Platform} (w : world) (time : float) :
  character_imgs (self_ (get_key time w).2) = character_imgs (self_ w).
Proof.
  unfold get_key, get_state. run_method.
  destruct (resolve time (timeline (self_ w))) as [idx tl]. simpl.
  destruct (idx <? 0)%Z; [done|].
  destruct (getitem _ idx) as [emotion|]; simpl; [|done].
  match goal with |- context [get_eye_state time idx ?w'] =>
    pose proof (get_eye_state_unmodified w' time idx) as Hun;
    destruct (get_eye_state time idx w') as [[eye|] w2]; simpl in *; by subst w2
  end.
Qed.

Lemma perform_renderable `{Platform} (w : world) (history : list call) :
  renderable (self_ w) → renderable (self_ (foldl perform w history)).
Proof.
  revert w. induction history as [|c history IH]; intros w Hw; simpl; [done|].
  apply IH. intros emotion.
  destruct c as [time|time|time idx]; simpl.
  - rewrite <-(same_timeline _ _ (call_configuration w time)).
    intros Hin. by apply call_character_imgs, Hw.
  - rewrite <-(same_timeline _ _ (get_key_configuration w time)).
    rewrite get_key_character_imgs. apply Hw.
  - rewrite get_eye_state_unmodified. apply Hw.
Qed.

Lemma call_no_key_error `{Platform} (w : world) (time : float) k :
  renderable (self_ w) → (__call__ time w).1 ≠ Raise (KeyError k).
Proof.
  intros Hw. rewrite call_unfold. unfold get_state. run_method.
  destruct (resolve time (timeline (self_ w))) as [idx tl]. simpl.
  destruct (idx <? 0)%Z; [done|].
  destruct (getitem _ idx) as [emotion|] eqn:E; simpl; [|no_key_error].
  apply getitem_elem, Hw in E as [img Himg]. unfold dict_getitem. rewrite Himg.
  simpl. destruct img as [p|a]; simpl; apply render_eyes_no_key_error.
Qed.

Lemma get_key_no_key_error `{Platform} (w : world) (time : float) k :
  (get_key time w).1 ≠ Raise (KeyError k).
Proof.
  unfold get_key, get_state. run_method.
  destruct (resolve time (timeline (self_ w))) as [idx tl]. simpl.
  destruct (idx <? 0)%Z; [done|].
  destruct (getitem _ idx) as [emotion|] eqn:E; simpl; [|no_key_error].
  match goal with |- context [get_eye_state time idx ?w'] =>
    pose proof (get_eye_state_no_key_error w' time idx k) as Hno;
    destruct (get_eye_state time idx w') as [[eye|] w2]; [done|by intros [= ->]]
  end.
Qed.

(** X20. A character built by [Character.__init__] never raises [KeyError]
    from [__call__] or [get_key], whatever calls came before and whatever
    the time. *)
Theorem init_never_key_error `{FileSystem} `{Platform}
    (start_times end_times : list float)
    (name dir : string) (characters character_status : list string)
    (initial_status : string) (bpm : Z) (bd : float) (c : Character)
    (rng : Z) (history : list call) (time : float) (k : string) :
  __init__ start_times end_times name dir characters character_status
           initial_status bpm bd = Ok c →
  let w := foldl perform {| self_ := c; np_random := rng |} history in
  (__call__ time w).1 ≠ Raise (KeyError k) ∧
  (get_key time w).1 ≠ Raise (KeyError k).
Proof.
  intros Hinit%init_renderable w. split.
  - apply call_no_key_error, perform_renderable. exact Hinit.
  - apply get_key_no_key_error.
Qed.

(** A directory with two frames of blinking for the status [n].  The
    directory is the current one, so that a path is the name of its file. *)
Definition example_files : FileSystem :=
  {| joinpath := λ _ name, name;
     path_name := λ p, p;
     path_exists := λ p, String.eqb p "n.eye.png";
     iterdir := λ _, ["n.png"; "n.eye.png"; "n.eye.1.png"; "s.png";
                      "n.eye.2.png"; "s.eye.1.png"]%string |}.

(** A script of three lines, the second and third spoken by [zunda]. *)
Definition example_character : result Character :=
  __init__ (H := example_files) [0; 2; 4] [2; 4; 6] "zunda" ""
    ["metan"; "zunda"; "metan"]%string ["s"; "s"; "n"]%string "n" 3 0.25.

Lemma init_images_witness :
  ∃ c, example_character = Ok c ∧
       length (character_timeline c) = 3%nat ∧
       character_imgs c !! "s"%string = Some (Path "s.png").
Proof.
  eexists. split; [vm_compute; reflexivity|].
  edestruct (init_images (H := example_files) [0; 2; 4] [2; 4; 6] "zunda" ""
               ["metan"; "zunda"; "metan"]%string ["s"; "s"; "n"]%string "n" 3 0.25)
    as (Hlen & Himgs & _); [vm_compute; reflexivity|].
  split; [exact Hlen|]. apply (Himgs "s"%string). vm_compute.
  apply list_elem_of_further, list_elem_of_here.
Defined.

Lemma init_timeline_status_witness :
  (∃ j, (j ≤ 2)%nat ∧ ["metan"; "zunda"; "metan"]%string !! j = Some "zunda"%string ∧
        ["s"; "s"; "n"]%string !! j = Some "s"%string ∧
        ∀ k, (j < k ≤ 2)%nat →
             ["metan"; "zunda"; "metan"]%string !! k ≠ Some "zunda"%string)
  ∨ ("s"%string = "n"%string ∧
     ∀ k, (k ≤ 2)%nat → ["metan"; "zunda"; "metan"]%string !! k ≠ Some "zunda"%string).
Proof.
  refine (init_timeline_status (H := example_files) [0; 2; 4] [2; 4; 6] "zunda" ""
            ["metan"; "zunda"; "metan"]%string ["s"; "s"; "n"]%string "n" 3 0.25 _
            2 "s" _ _).
  - vm_compute. reflexivity.
  - vm_compute. reflexivity.
Defined.

Lemma init_eyes_witness :
  ∃ c, example_character = Ok c ∧
       (is_Some (eye_imgs c !! "n"%string) ↔
          is_Some (character_imgs c !! "n"%string) ∧
          path_exists (FileSystem := example_files)
            (eye_path (H := example_files) "" "n") = true) ∧
       ¬ is_Some (eye_imgs c !! "s"%string).
Proof.
  eexists. split; [vm_compute; reflexivity|].
  split.
  - eapply (init_eyes (H := example_files) [0; 2; 4] [2; 4; 6] "zunda" ""
            ["metan"; "zunda"; "metan"]%string ["s"; "s"; "n"]%string "n" 3 0.25).
    vm_compute. reflexivity.
  - edestruct (init_eyes (H := example_files) [0; 2; 4] [2; 4; 6] "zunda" ""
            ["metan"; "zunda"; "metan"]%string ["s"; "s"; "n"]%string "n" 3 0.25)
      with (emotion := "s"%string) as [Hiff _]; [vm_compute; reflexivity|].
    intros [_ Hex]%Hiff. vm_compute in Hex. discriminate.
Defined.

Lemma init_never_key_error_witness :
  ∃ c, example_character = Ok c ∧
       (__call__ (H := example_platform) 5
          (foldl (perform (H := example_platform)) {| self_ := c; np_random := 0 |}
                 [CallRender 1; CallGetKey 3])).1 ≠ Raise (KeyError "n").
Proof.
  eexists. split; [vm_compute; reflexivity|].
  eapply (init_never_key_error (H := example_files) (H0 := example_platform)
            [0; 2; 4] [2; 4; 6] "zunda" ""
            ["metan"; "zunda"; "metan"]%string ["s"; "s"; "n"]%string "n" 3 0.25).
  vm_compute. reflexivity.
Defined.

End character_init_facts.

(** ** Facts about [Slide] *)

Module slide_facts.
Import timeline slide.

Ltac run_method :=
  unfold mbind, method_bind, mret, method_ret, get, lift, modify, convert;
  cbn beta iota.

(** The pages [__call__] picks from: the stored ones, or what converting
    the PDF now gives. *)
Definition pages `{Pdf2Image} (w : world) : result (list ndarray) :=
  match slide_images (self_ w) with
  | Some imgs => Ok imgs
  | None => convert_from_path (conversions w) (slide_file (self_ w))
  end.

(** [__call__] and [get_key] with the state threaded by hand. *)
Lemma call_eq `{Pdf2Image} (w : world) (time : float) :
  __call__ time w =
    let w1 := {| self_ := set_timeline (resolve time (timeline (self_ w))).2 (self_ w);
                 conversions := conversions w |} in
    let idx := (resolve time (timeline (self_ w))).1 in
    if (idx <? 0)%Z then (Ok None, w1)
    else
      match array_getitem (slide_timeline (self_ w)) idx with
      | Raise e => (Raise e, w1)
      | Ok n =>
          match slide_images (self_ w) with
          | Some imgs =>
              match getitem (PyList imgs) n with
              | Ok img => (Ok (Some img), w1)
              | Raise e => (Raise e, w1)
              end
          | None =>
              match convert_from_path (conversions w) (slide_file (self_ w)) with
              | Ok imgs =>
                  let w2 := {| self_ := set_slide_images (Some imgs) (self_ w1);
                               conversions := S (conversions w) |} in
                  match getitem (PyList imgs) n with
                  | Ok img => (Ok (Some img), w2)
                  | Raise e => (Raise e, w2)
                  end
              | Raise e =>
                  (Raise e, {| self_ := self_ w1; conversions := S (conversions w) |})
              end
          end
      end.
Proof.
  unfold __call__, get_state. run_method.
  destruct (resolve time (timeline (self_ w))) as [idx tl]. cbn -[getitem].
  destruct (idx <? 0)%Z; [done|]. cbn -[getitem].
  destruct (array_getitem _ idx) as [n|]; [|done]. cbn -[getitem].
  destruct (slide_images (self_ w)) as [imgs|] eqn:E; cbn -[getitem]; rewrite ?E.
  - done.
  - by destruct (convert_from_path _ _).
Qed.

Lemma get_key_eq (w : world) (time : float) :
  get_key time w =
    let w1 := {| self_ := set_timeline (resolve time (timeline (self_ w))).2 (self_ w);
                 conversions := conversions w |} in
    let idx := (resolve time (timeline (self_ w))).1 in
    if (0 <? idx)%Z then (array_getitem (slide_timeline (self_ w)) idx, w1)
    else (Ok (-1)%Z, w1).
Proof.
  unfold get_key, get_state. run_method.
  destruct (resolve time (timeline (self_ w))) as [idx tl]. cbn -[getitem].
  by destruct (0 <? idx)%Z.
Qed.

(** X21. Inside the first interval [Slide.get_key] returns [-1], the key it
    also gives outside every interval, although [Slide.__call__] draws the
    page [slide_timeline[0]] there. *)
Theorem first_interval_key `{Pdf2Image} (w : world) (time : float)
    (n : Z) (imgs : list ndarray) (img : ndarray) :
  (resolve time (timeline (self_ w))).1 = 0%Z →
  slide_timeline (self_ w) !! 0%nat = Some n →
  pages w = Ok imgs →
  getitem (PyList imgs) n = Ok img →
  (get_key time w).1 = Ok (-1)%Z ∧ (__call__ time w).1 = Ok (Some img).
Proof.
  intros Hres Hn Hpages Himg.
  assert (array_getitem (slide_timeline (self_ w)) 0 = Ok n) as Harr.
  { destruct (slide_timeline (self_ w)) as [|n' tl']; [done|].
    by injection Hn as ->. }
  rewrite call_eq, get_key_eq. cbv zeta. rewrite Hres. cbn -[getitem].
  rewrite Harr. unfold pages in Hpages.
  destruct (slide_images (self_ w)) as [imgs'|].
  - injection Hpages as ->. by rewrite Himg.
  - by rewrite Hpages, Himg.
Qed.

(** X22. From the second interval on the key names the page: [__call__]
    returns the page whose number [get_key] returns, and fails exactly when
    getting the pages or indexing them with that number fails. *)
Theorem key_names_page `{Pdf2Image} (w : world) (time : float) (k : Z) :
  (0 < (resolve time (timeline (self_ w))).1)%Z →
  (get_key time w).1 = Ok k →
  (__call__ time w).1 =
    (imgs ← pages w; img ← getitem (PyList imgs) k; Ok (Some img)).
Proof.
  rewrite call_eq, get_key_eq. cbv zeta. intros Hidx.
  assert ((0 <? (resolve time (timeline (self_ w))).1)%Z = true) as -> by lia.
  assert (((resolve time (timeline (self_ w))).1 <? 0)%Z = false) as -> by lia.
  cbn -[getitem]. intros ->. unfold pages.
  destruct (slide_images (self_ w)) as [imgs|]; cbn -[getitem].
  - by destruct (getitem _ k).
  - destruct (convert_from_path _ _) as [imgs|]; cbn -[getitem]; [|done].
    by destruct (getitem _ k).
Qed.

(** The calls a client can make on a slide layer. *)
Inductive call :=
  | CallRender (time : float)
  | CallGetKey (time : float).

(** The world after the call, whether it returned or raised. *)
Definition perform `{Pdf2Image} (w : world) (c : call) : world :=
  match c with
  | CallRender time => (__call__ time w).2
  | CallGetKey time => (get_key time w).2
  end.









(** X24. When [Slide.__call__] has returned for a time, calling it again
    for that time returns the same page and changes nothing any more. *)
Theorem slide_call_again `{Pdf2Image} (w w' : world) (time : float)
    (r : option ndarray) :
  __call__ time w = (Ok r, w') → __call__ time w' = (Ok r, w').
Proof.
  rewrite !call_eq. cbv zeta.
  pose proof (commentary_more.resolve_again time (timeline (self_ w))) as Hagain.
  destruct (resolve time (timeline (self_ w))) as [idx tl]. cbn -[getitem] in *.
  destruct (idx <? 0)%Z eqn:Hidx.
  { intros [= <- <-]. cbn -[getitem]. rewrite Hagain. cbn -[getitem].
    by rewrite Hidx. }
  destruct (array_getitem _ idx) as [n|] eqn:Harr; [|done].
  destruct (slide_images (self_ w)) as [imgs|] eqn:E.
  - destruct (getitem _ n) as [img|] eqn:Himg; [|done].
    intros [= <- <-]. cbn -[getitem]. rewrite Hagain. cbn -[getitem].
    by rewrite Hidx, Harr, E, Himg.
  - destruct (convert_from_path _ _) as [imgs|]; [|done].
    destruct (getitem _ n) as [img|] eqn:Himg; [|done].
    intros [= <- <-]. cbn -[getitem]. rewrite Hagain. cbn -[getitem].
    by rewrite Hidx, Harr, Himg.
Qed.

(** A PDF of three pages whose first conversion fails. *)
Definition example_pdf : Pdf2Image :=
  {| convert_from_path := λ n _,
       match n with
       | 0%nat => Raise (OtherError "PDFPageCountError")
       | _ => Ok [NDArray [0]; NDArray [1]; NDArray [2]]%Z
       end |}.

(** Three intervals; the page changes at the second one. *)
Definition deck : world :=
  {| self_ := {| timeline := {| start_times := [0; 2; 4]; end_times := [2; 4; 6];
                                cache := None |};
                 slide_timeline := [0; 1; 1]%Z;
                 slide_file := "deck.pdf";
                 slide_images := None |};
     conversions := 1 |}.

Lemma first_interval_key_witness :
  (get_key 1 deck).1 = Ok (-1)%Z ∧
  (__call__ (H := example_pdf) 1 deck).1 = Ok (Some (NDArray [0%Z])).
Proof.
  apply (first_interval_key (H := example_pdf) deck 1 0
           [NDArray [0]; NDArray [1]; NDArray [2]]%Z (NDArray [0%Z]));
    vm_compute; reflexivity.
Defined.

Lemma key_names_page_witness :
  (__call__ (H := example_pdf) 3 deck).1 = Ok (Some (NDArray [1%Z])).
Proof.
  apply (key_names_page (H := example_pdf) deck 3 1).
  - vm_compute. reflexivity.
  - vm_compute. reflexivity.
Defined.

Lemma slide_call_again_witness :
  ∃ r w', __call__ (H := example_pdf) 3 deck = (Ok r, w') ∧
          __call__ (H := example_pdf) 3 w' = (Ok r, w').
Proof.
  eexists _, _. split; [vm_compute; reflexivity|].
  apply (slide_call_again (H := example_pdf) deck). vm_compute. reflexivity.
Defined.

End slide_facts.
